(** * Module scaffolding helpers (tools/cli/helpers/util.js)

    A shallow embedding of the helper module of the command line
    scaffolder: the path resolver, the field-type mapper, the template
    renaming pass and the export-file patcher, with the properties of
    each that the specification states.

    JavaScript strings are modelled as [string] and taken to hold ASCII
    text; the export files live in a finite map from paths to file
    contents, the template tree is the listing of its entries. *)

From Stdlib Require Import Ascii String List Arith Bool Lia.
From stdpp Require Import gmap strings.

Local Open Scope string_scope.
Local Open Scope list_scope.

(** ** JavaScript string primitives *)

Module JsString.

Definition dollar : ascii := "$"%char.
Definition newline : ascii := "010"%char.

(** [startsWith p s] is the text that follows [p] when [s] begins with [p]. *)
Fixpoint startsWith (p s : string) : option string :=
  match p with
  | EmptyString => Some s
  | String a p' =>
      match s with
      | EmptyString => None
      | String b s' => if Ascii.eqb a b then startsWith p' s' else None
      end
  end.

Definition take (n : nat) (s : string) : string := String.substring 0 n s.

Fixpoint drop (n : nat) (s : string) : string :=
  match n with
  | 0 => s
  | S n' => match s with
            | EmptyString => EmptyString
            | String _ s' => drop n' s'
            end
  end.

(** [s.slice(i, j)] for [0 <= i] and [0 <= j]: both ends are clamped to
    the length of [s]. *)
Definition slice (i j : nat) (s : string) : string := take (j - i) (drop i s).

(** [s.indexOf(p)], with [None] for the JavaScript result [-1]. *)
Fixpoint indexOf (p s : string) : option nat :=
  match startsWith p s with
  | Some _ => Some 0
  | None =>
      match s with
      | EmptyString => None
      | String _ s' => option_map S (indexOf p s')
      end
  end.

(** [s.lastIndexOf(p)], with [None] for the JavaScript result [-1]. *)
Fixpoint lastIndexOf (p s : string) : option nat :=
  match s with
  | EmptyString => match startsWith p s with Some _ => Some 0 | None => None end
  | String _ s' =>
      match lastIndexOf p s' with
      | Some i => Some (S i)
      | None => match startsWith p s with Some _ => Some 0 | None => None end
      end
  end.

(** [occurs p s] holds when [p] is a substring of [s]. *)
Fixpoint occurs (p s : string) : bool :=
  match startsWith p s with
  | Some _ => true
  | None =>
      match s with
      | EmptyString => false
      | String _ s' => occurs p s'
      end
  end.

Fixpoint contains (c : ascii) (s : string) : bool :=
  match s with
  | EmptyString => false
  | String a s' => Ascii.eqb a c || contains c s'
  end.

(** White space and line terminators among the one-byte characters:
    TAB, LF, VT, FF, CR and SPACE.  This is the class of [\s] and the
    class stripped by [trim]. *)
Definition isWhiteSpace (c : ascii) : bool :=
  let n := nat_of_ascii c in
  (Nat.leb 9 n && Nat.leb n 13) || Nat.eqb n 32.

(** The class of [.] : every character but the line terminators. *)
Definition isDot (c : ascii) : bool :=
  let n := nat_of_ascii c in
  negb (Nat.eqb n 10 || Nat.eqb n 13).

Fixpoint trimStart (s : string) : string :=
  match s with
  | EmptyString => EmptyString
  | String c s' => if isWhiteSpace c then trimStart s' else s
  end.

Fixpoint trimEnd (s : string) : string :=
  match s with
  | EmptyString => EmptyString
  | String c s' =>
      match trimEnd s' with
      | EmptyString => if isWhiteSpace c then EmptyString else String c EmptyString
      | t => String c t
      end
  end.

Definition trim (s : string) : string := trimEnd (trimStart s).

(** [s.split(sep)] for a one-character separator.  The result is never
    empty: a string without the separator is its own single segment. *)
Fixpoint split (sep : ascii) (s : string) : list string :=
  match s with
  | EmptyString => [EmptyString]
  | String c s' =>
      if Ascii.eqb c sep then EmptyString :: split sep s'
      else match split sep s' with
           | seg :: segs => String c seg :: segs
           | [] => [String c EmptyString]
           end
  end.

(** [parts.join(sep)]. *)
Fixpoint join (sep : string) (parts : list string) : string :=
  match parts with
  | [] => EmptyString
  | [p] => p
  | p :: ps => p +:+ sep +:+ join sep ps
  end.

(** Reading element [0] of an array inside a template literal: a missing
    element prints as [undefined]. *)
Definition first (parts : list string) : string :=
  match parts with
  | p :: _ => p
  | [] => "undefined"
  end.

End JsString.

Import JsString.

(** ** Path resolver *)

Module PathResolver.

(** The options object, read only through the truthiness of its [old]
    property (an absent property is falsy). *)
Record Options := { old : bool }.

Section Paths.

(** [BASE_PATH] comes from the configuration module. *)
Variable BASE_PATH : string.

(** [location.split('-')[0]] *)
Definition segment (location : string) : string :=
  first (split "-"%char location).

Definition computeModulesPath (location : string) (options : Options)
    (moduleName : string) : string :=
  if old options || (String.eqb moduleName "" && String.eqb (segment location) "server")
  then BASE_PATH +:+ "/packages/" +:+ segment location +:+ "/src/modules/" +:+ moduleName
  else if String.eqb moduleName ""
  then BASE_PATH +:+ "/packages/" +:+ segment location +:+ "/src/"
  else BASE_PATH +:+ "/modules/" +:+ moduleName +:+ "/" +:+ location.

Definition computeRootModulesPath (moduleName : string) : string :=
  BASE_PATH +:+ "/modules/" +:+ moduleName.

Definition computePackagePath (location : string) : string :=
  BASE_PATH +:+ "/packages/" +:+ segment location +:+ "/package.json".

End Paths.

End PathResolver.

(** ** Field-type mapper *)

Module FieldType.

(** Constructor references a schema field can carry: the built-in
    [Boolean], [String] and [Date], the classes [ID], [Int], [Float],
    [DateTime] and [Time] of the schema library, and any other class. *)
Inductive Ctor :=
| CBoolean | CID | CInt | CFloat | CString | CDate | CDateTime | CTime
| COther (name : string).

Definition Ctor_eqb (a b : Ctor) : bool :=
  match a, b with
  | CBoolean, CBoolean | CID, CID | CInt, CInt | CFloat, CFloat
  | CString, CString | CDate, CDate | CDateTime, CDateTime | CTime, CTime => true
  | COther x, COther y => String.eqb x y
  | _, _ => false
  end.

(** A class value: the constructor itself and the constructors whose
    [prototype] lies on the prototype chain of its own [prototype]
    (its proper ancestors). *)
Record SchemaType := { ctor : Ctor; ancestors : list Ctor }.

Record SchemaField := { type : SchemaType; optional : bool }.

(** [value.type === targetType || value.type.prototype instanceof targetType] *)
Definition hasTypeOf (value : SchemaField) (targetType : Ctor) : bool :=
  Ctor_eqb (ctor (type value)) targetType
  || existsb (Ctor_eqb targetType) (ancestors (type value)).

Definition generateField (value : SchemaField) (update : bool) : string :=
  let result := "" in
  let result :=
    if hasTypeOf value CBoolean then result +:+ "Boolean"
    else if hasTypeOf value CID then result +:+ "ID"
    else if hasTypeOf value CInt then result +:+ "Int"
    else if hasTypeOf value CFloat then result +:+ "Float"
    else if hasTypeOf value CString then result +:+ "String"
    else if hasTypeOf value CDate then result +:+ "Date"
    else if hasTypeOf value CDateTime then result +:+ "DateTime"
    else if hasTypeOf value CTime then result +:+ "Time"
    else result in
  if negb update && negb (optional value) then result +:+ "!" else result.

(** The recognized kinds, in the order in which they are tested. *)
Definition recognized : list Ctor :=
  [CBoolean; CID; CInt; CFloat; CString; CDate; CDateTime; CTime].

(** The field's type matches none of the recognized kinds. *)
Definition matchesNone (value : SchemaField) : bool :=
  forallb (fun k => negb (hasTypeOf value k)) recognized.

(** A field of a class that the mapper does not know: a [Json] class
    that extends [Object] only. *)
Definition jsonField (opt : bool) : SchemaField :=
  {| type := {| ctor := COther "Json"; ancestors := [COther "Object"] |};
     optional := opt |}.

End FieldType.

(** ** Regular expressions and replacement *)

Module Regex.

(** The fragment of the pattern language that the helpers use.  [Plus]
    is a character class under a greedy [+]; [Group i] is the capturing
    group number [i]; [NotAhead] is the negative look-ahead [(?!r)]. *)
Inductive regex :=
| Eps
| Lit (s : string)
| Class (p : ascii -> bool)
| Seq (a b : regex)
| Alt (a b : regex)
| Group (i : nat) (r : regex)
| Plus (p : ascii -> bool)
| NotAhead (r : regex).

Definition captures := list (nat * string).

(** Greedy iteration with backtracking: the longest run is tried first. *)
Fixpoint plusLoop {A : Type} (p : ascii -> bool) (s : string)
    (k : string -> option A) : option A :=
  match s with
  | EmptyString => None
  | String c s' =>
      if p c then
        match plusLoop p s' k with
        | Some x => Some x
        | None => k s'
        end
      else None
  end.

(** Backtracking matcher in continuation-passing style: alternatives are
    tried left to right and the first complete match wins. *)
Fixpoint run (r : regex) (A : Type) (caps : captures) (s : string)
    (k : captures -> string -> option A) {struct r} : option A :=
  match r with
  | Eps => k caps s
  | Lit p =>
      match startsWith p s with
      | Some s' => k caps s'
      | None => None
      end
  | Class p =>
      match s with
      | String c s' => if p c then k caps s' else None
      | EmptyString => None
      end
  | Seq a b => run a A caps s (fun caps' s' => run b A caps' s' k)
  | Alt a b =>
      match run a A caps s k with
      | Some x => Some x
      | None => run b A caps s k
      end
  | Group i r' =>
      run r' A caps s
        (fun caps' s' => k ((i, take (String.length s - String.length s') s) :: caps') s')
  | Plus p => plusLoop p s (k caps)
  | NotAhead r' =>
      match run r' unit caps s (fun _ _ => Some tt) with
      | Some _ => None
      | None => k caps s
      end
  end.

(** A match attempt at the start of [s]: the captures and the text that
    follows the match. *)
Definition exec (r : regex) (s : string) : option (captures * string) :=
  run r _ [] s (fun caps s' => Some (caps, s')).

Fixpoint groupCount (r : regex) : nat :=
  match r with
  | Seq a b | Alt a b => groupCount a + groupCount b
  | Group _ r' => S (groupCount r')
  | NotAhead r' => groupCount r'
  | _ => 0
  end.

(** The text of capture [i]; a group that did not take part reads as the
    empty string. *)
Fixpoint capture (caps : captures) (i : nat) : string :=
  match caps with
  | [] => ""
  | (j, t) :: caps' => if Nat.eqb i j then t else capture caps' i
  end.

Definition isDigit (c : ascii) : bool :=
  let n := nat_of_ascii c in Nat.leb 48 n && Nat.leb n 57.

Definition digitValue (c : ascii) : nat := nat_of_ascii c - 48.

(** GetSubstitution: expansion of the replacement patterns [$$], [$&],
    [$`], [$'], [$n] and [$nn] in a replacement text, for a match
    [matched] preceded by [before] and followed by [after], in a
    pattern with [m] capturing groups. *)
Fixpoint expand (m : nat) (caps : captures) (matched before after : string)
    (t : string) {struct t} : string :=
  match t with
  | EmptyString => EmptyString
  | String c t' =>
      if Ascii.eqb c dollar then
        match t' with
        | EmptyString => String c EmptyString
        | String d t'' =>
            let single :=
              let i := digitValue d in
              if Nat.leb 1 i && Nat.leb i m
              then capture caps i +:+ expand m caps matched before after t''
              else String c (String d (expand m caps matched before after t'')) in
            if Ascii.eqb d dollar then String dollar (expand m caps matched before after t'')
            else if Ascii.eqb d "&"%char then matched +:+ expand m caps matched before after t''
            else if Ascii.eqb d "`"%char then before +:+ expand m caps matched before after t''
            else if Ascii.eqb d "'"%char then after +:+ expand m caps matched before after t''
            else if isDigit d then
              match t'' with
              | String e t3 =>
                  if isDigit e then
                    let i2 := 10 * digitValue d + digitValue e in
                    if Nat.ltb m i2 then single
                    else if Nat.leb 1 i2
                    then capture caps i2 +:+ expand m caps matched before after t3
                    else String c (String d (String e (expand m caps matched before after t3)))
                  else single
              | EmptyString => single
              end
            else String c (expand m caps matched before after t')
        end
      else String c (expand m caps matched before after t')
  end.

(** [s.replace(p, t)] for a string pattern [p]: only the first
    occurrence of [p] is replaced. *)
Definition replaceFirst (p t s : string) : string :=
  match indexOf p s with
  | None => s
  | Some pos =>
      let preserved := take pos s in
      let after := drop (pos + String.length p) s in
      preserved +:+ expand 0 [] p preserved after t +:+ after
  end.

(** The scan of [s.replace(/r/g, t)]: [before] is the text already
    passed and [skip] the number of characters of the current match that
    remain to be consumed.  After an empty match the scan moves on by
    one character. *)
Fixpoint scan (r : regex) (t : string) (skip : nat) (before s : string)
    {struct s} : string :=
  match skip with
  | S skip' =>
      match s with
      | EmptyString => EmptyString
      | String c s' => scan r t skip' (before +:+ String c EmptyString) s'
      end
  | 0 =>
      match exec r s with
      | Some (caps, rest) =>
          let n := String.length s - String.length rest in
          let out := expand (groupCount r) caps (take n s) before rest t in
          match s with
          | EmptyString => out
          | String c s' =>
              match n with
              | 0 => out +:+ String c (scan r t 0 (before +:+ String c EmptyString) s')
              | S n' => out +:+ scan r t n' (before +:+ String c EmptyString) s'
              end
          end
      | None =>
          match s with
          | EmptyString => EmptyString
          | String c s' => String c (scan r t 0 (before +:+ String c EmptyString) s')
          end
      end
  end.

(** [s.replace(/r/g, t)] *)
Definition replaceAll (r : regex) (t s : string) : string := scan r t 0 "" s.

End Regex.

Import Regex.

(** ** Template materializer *)

Module Template.

(** The case renderers are library functions ([pascalize] and
    [decamelize] of humps, [startCase] of lodash and the built-in
    [toUpperCase]); the pass is stated over any such functions.
    [decamelize sep s] is [decamelize(s, { separator: sep })], and the
    separator is ["_"] when the call gives none. *)
Record Renderers := {
  pascalize : string -> string;
  decamelize : string -> string -> string;
  startCase : string -> string;
  toUpperCase : string -> string
}.

(** An entry of the destination directory tree: its path below the
    directory, whether it is a regular file, and the text of the file. *)
Record Entry := { name : string; isFile : bool; content : string }.

(** A path is hidden when one of its components begins with a dot. *)
Definition isHidden (entryName : string) : bool :=
  existsb (fun component =>
             match component with
             | String c _ => Ascii.eqb c "."%char
             | EmptyString => false
             end) (split "/"%char entryName).

(** [shell.ls('-Rl', '.')]: the recursive listing, made without the
    option [-A], leaves the hidden entries out. *)
Definition ls (tree : list Entry) : list Entry :=
  List.filter (fun entry => negb (isHidden (name entry))) tree.

Definition LF : string := String newline EmptyString.

(** [sed -i r t file] rewrites the file line by line: each line of the
    text goes through [line.replace(r, t)] and the lines are joined
    again. *)
Definition sed (r : regex) (t : string) (text : string) : string :=
  join LF (map (replaceAll r t) (split newline text)).

Section Pass.

Variable R : Renderers.

(** [shell.mv]: [mv src dest tree] is the listing after the move.  What
    a move does to the tree (a destination directory that is missing, a
    name that is taken) is the shell's business and is left open. *)
Variable mv : string -> string -> list Entry -> list Entry.

(** The new name of a file: [entry.name.replace('Module', Module)]. *)
Definition renamed (moduleName : string) (entryName : string) : string :=
  let Module := pascalize R moduleName in
  replaceFirst "Module" Module entryName.

(** The [mv] calls made for a listing, one for every regular file, in
    the order of the listing. *)
Definition renameCalls (moduleName : string) (tree : list Entry)
    : list (string * string) :=
  flat_map (fun entry =>
              if isFile entry
              then [(name entry, renamed moduleName (name entry))]
              else []) tree.

(** First walk: the calls made for the listing of the tree, each of
    them run on the tree. *)
Definition renamePass (moduleName : string) (tree : list Entry) : list Entry :=
  fold_left (fun tree call => mv (fst call) (snd call) tree)
    (renameCalls moduleName (ls tree)) tree.

(** The six [sed] calls on one file, in the order of the source. *)
Definition substituted (moduleName : string) (text : string) : string :=
  let Module := pascalize R moduleName in
  let text := sed (Lit "$module$") moduleName text in
  let text := sed (Lit "$_module$") (decamelize R "_" moduleName) text in
  let text := sed (Lit "$-module$") (decamelize R "-" moduleName) text in
  let text := sed (Lit "$Module$") Module text in
  let text := sed (Lit "$MoDuLe$") (startCase R moduleName) text in
  sed (Lit "$MODULE$") (toUpperCase R moduleName) text.

(** Second walk, over a fresh listing: the placeholders are replaced in
    place in every regular file that the listing holds. *)
Definition substitutePass (moduleName : string) (tree : list Entry) : list Entry :=
  map (fun entry =>
         if isFile entry && negb (isHidden (name entry))
         then {| name := name entry; isFile := isFile entry;
                 content := substituted moduleName (content entry) |}
         else entry) tree.

Definition renameFiles (moduleName : string) (tree : list Entry) : list Entry :=
  substitutePass moduleName (renamePass moduleName tree).

End Pass.

(** The placeholder tokens of a template, in the order of their [sed]
    calls, each with the text that replaces it. *)
Definition placeholders : list string :=
  ["$module$"; "$_module$"; "$-module$"; "$Module$"; "$MoDuLe$"; "$MODULE$"].

(** [templateLines token lines] holds of a text given line by line, each
    line as the pieces of plain text between its occurrences of [token]:
    there is at least one line, no piece holds a dollar sign or a line
    break, and no other placeholder occurs in a line. *)
Definition plainPiece (p : string) : bool :=
  negb (contains dollar p) && negb (contains newline p).

Definition templateLine (token : string) (pieces : list string) : bool :=
  forallb plainPiece pieces
  && forallb (fun other => String.eqb other token || negb (occurs other (join token pieces)))
       placeholders.

Definition templateLines (token : string) (lines : list (list string)) : bool :=
  match lines with
  | [] => false
  | _ => forallb (templateLine token) lines
  end.

(** The text that the lines stand for. *)
Definition templateText (token : string) (lines : list (list string)) : string :=
  join LF (map (join token) lines).

(** *** Templates with several placeholders

    A line of a template is given by the text in front of its first
    dollar sign and then, slot by slot, a slot and the text that follows
    it.  A slot is one of the six placeholders or a dollar sign that
    belongs to none; the texts hold no dollar sign. *)
Definition Line : Type := (string * list (string * string))%type.

Definition isPlaceholder (s : string) : bool := existsb (String.eqb s) placeholders.

Definition isSlot (s : string) : bool := isPlaceholder s || String.eqb s "$".

(** The place of a placeholder in the order of the [sed] calls. *)
Definition rank (token : string) : nat :=
  if String.eqb token "$module$" then 0
  else if String.eqb token "$_module$" then 1
  else if String.eqb token "$-module$" then 2
  else if String.eqb token "$Module$" then 3
  else if String.eqb token "$MoDuLe$" then 4
  else if String.eqb token "$MODULE$" then 5
  else 6.

(** The text [s], put behind a dollar sign, begins a placeholder. *)
Definition opensPlaceholder (s : string) : bool :=
  existsb (fun token =>
             match startsWith (String dollar s) token with
             | Some _ => true
             | None => false
             end) placeholders.

Fixpoint itemsText (show : string -> string) (items : list (string * string)) : string :=
  match items with
  | [] => EmptyString
  | (slot, text) :: rest => show slot +:+ text +:+ itemsText show rest
  end.

Definition lineText (show : string -> string) (line : Line) : string :=
  fst line +:+ itemsText show (snd line).

(** The text of a file given line by line, with every slot written as
    [show] says. *)
Definition fileText (show : string -> string) (lines : list Line) : string :=
  join LF (map (lineText show) lines).

Definition rendering (R : Renderers) (moduleName : string) (token : string) : string :=
  if String.eqb token "$module$" then moduleName
  else if String.eqb token "$_module$" then decamelize R "_" moduleName
  else if String.eqb token "$-module$" then decamelize R "-" moduleName
  else if String.eqb token "$Module$" then pascalize R moduleName
  else if String.eqb token "$MoDuLe$" then startCase R moduleName
  else toUpperCase R moduleName.

(** A slot of the template as the materialized file should have it: a
    placeholder gives way to its rendering, another dollar sign stays. *)
Definition rendered (R : Renderers) (moduleName : string) (slot : string) : string :=
  if isPlaceholder slot then rendering R moduleName slot else slot.

(** A slot as it stands in the file when the calls for the first [k]
    placeholders have been made. *)
Definition shown (R : Renderers) (moduleName : string) (k : nat) (slot : string)
    : string :=
  if Nat.ltb (rank slot) k then rendering R moduleName slot else slot.

(** The text between two slots of a line is not the name of a
    placeholder and, where the second slot is a placeholder, the text
    followed by the rendering of that placeholder is not the beginning of
    the name of a placeholder: the dollar sign in front of the text then
    begins no placeholder, neither in the template nor once the second
    slot has been replaced. *)
Fixpoint gapsOK (R : Renderers) (moduleName : string)
    (items : list (string * string)) : bool :=
  match items with
  | (_, text) :: rest =>
      match rest with
      | (next, _) :: _ =>
          negb (isPlaceholder (String dollar (text +:+ "$")))
          && negb (isPlaceholder next
                   && opensPlaceholder (text +:+ rendering R moduleName next))
          && gapsOK R moduleName rest
      | [] => true
      end
  | [] => true
  end.

(** Every slot is a placeholder or a dollar sign, and the text behind
    it holds no dollar sign and no line break. *)
Definition itemsOK (items : list (string * string)) : bool :=
  forallb (fun item => isSlot (fst item) && plainPiece (snd item)) items.

Definition lineOK (R : Renderers) (moduleName : string) (line : Line) : bool :=
  plainPiece (fst line) && itemsOK (snd line) && gapsOK R moduleName (snd line).

(** What follows a line within the text of a file: nothing, or a line
    break and the lines after it. *)
Definition lineTail (tail : string) : Prop :=
  tail = "" \/ exists rest, tail = String newline rest.

(** [templateFile R moduleName lines] holds of a file given line by
    line when there is at least one line, the texts hold no dollar sign
    and no line break, every slot is a placeholder or a dollar sign, the
    texts between slots are as [gapsOK] says, and the six renderings of
    the module name hold no dollar sign and no line break. *)
Definition templateFile (R : Renderers) (moduleName : string) (lines : list Line)
    : bool :=
  match lines with
  | [] => false
  | _ => forallb (lineOK R moduleName) lines
  end
  && forallb (fun token => plainPiece (rendering R moduleName token)) placeholders.

(** *** The renderers on plain camel-case names

    An executable instance of the renderers for names written with
    ASCII letters in camel case ([userProfile]); it is used to run the
    pass on examples. *)

Definition isUpper (c : ascii) : bool :=
  let n := nat_of_ascii c in Nat.leb 65 n && Nat.leb n 90.

Definition isLower (c : ascii) : bool :=
  let n := nat_of_ascii c in Nat.leb 97 n && Nat.leb n 122.

Definition upper (c : ascii) : ascii :=
  if isLower c then ascii_of_nat (nat_of_ascii c - 32) else c.

Definition lower (c : ascii) : ascii :=
  if isUpper c then ascii_of_nat (nat_of_ascii c + 32) else c.

Fixpoint mapChars (f : ascii -> ascii) (s : string) : string :=
  match s with
  | EmptyString => EmptyString
  | String c s' => String (f c) (mapChars f s')
  end.

Definition capitalize (s : string) : string :=
  match s with
  | EmptyString => EmptyString
  | String c s' => String (upper c) s'
  end.

(** A separator is put in front of every capital letter but a leading
    one, and the result is put in lower case. *)
Fixpoint separateWords (sep : string) (atStart : bool) (s : string) : string :=
  match s with
  | EmptyString => EmptyString
  | String c s' =>
      if isUpper c && negb atStart
      then sep +:+ String c (separateWords sep false s')
      else String c (separateWords sep false s')
  end.

Definition camelRenderers : Renderers := {|
  pascalize := capitalize;
  decamelize := fun sep s => mapChars lower (separateWords sep true s);
  startCase := fun s => capitalize (separateWords " " true s);
  toUpperCase := mapChars upper
|}.

(** A move that succeeds: the entry listed at [src] is listed at [dest]
    afterwards.  It stands for [shell.mv] when the destination lies in a
    directory that exists and the name is free. *)
Definition moveEntry (src dest : string) (tree : list Entry) : list Entry :=
  map (fun entry =>
         if String.eqb (name entry) src
         then {| name := dest; isFile := isFile entry; content := content entry |}
         else entry) tree.

(** Sample data: a component file of the template and a file with the
    snake-case placeholder on two lines. *)
Definition viewEntry : Entry :=
  {| name := "components/ModuleView.jsx"; isFile := true;
     content := "export default $Module$View;" |}.

(** A hidden file of the template. *)
Definition hiddenEntry : Entry :=
  {| name := ".Module.rc"; isFile := true; content := "name = $module$" |}.

Definition tableLines : list (list string) :=
  [["export const "; "_TABLE = '"; "';"]; ["// table of "; ""]].

Definition tableEntry : Entry :=
  {| name := "sql.js"; isFile := true; content := templateText "$_module$" tableLines |}.

(** A query file with two placeholders and with dollar signs of its
    own. *)
Definition queryLines : list Line :=
  [("import ", [("$Module$", " from './"); ("$module$", "';")]);
   ("query ", [("$module$", "("); ("$", "id: Int!) { "); ("$module$", "(id: ");
               ("$", "id) }")])].

Definition queryEntry : Entry :=
  {| name := "query.js"; isFile := true;
     content := fileText (fun slot => slot) queryLines |}.

End Template.

(** ** Export-file patcher *)

Module ExportFile.

Import Template.

(** [/(,|)\s};/g] *)
Definition closingBrace : regex :=
  Seq (Group 1 (Alt (Lit ",") Eps)) (Seq (Class isWhiteSpace) (Lit "};")).

(** The default-export block made for a single name. *)
Definition exportGraphqlContainer (exportName : string) : string :=
  LF +:+ "export default {" +:+ LF +:+ "  " +:+ exportName +:+ LF +:+ "};" +:+ LF.

(** The text written over a file that holds [data]. *)
Definition updatedText (exportName importString data : string) : string :=
  let generatedContainer := trim data in
  let fresh := importString +:+ exportGraphqlContainer exportName in
  if Nat.ltb 1 (String.length generatedContainer) then
    match lastIndexOf "';" generatedContainer with
    | Some index =>
        let computedIndex := index + 3 in
        let computedGeneratedContainer :=
          slice 0 computedIndex generatedContainer
          +:+ importString
          +:+ slice computedIndex (String.length generatedContainer) generatedContainer in
        replaceAll closingBrace
          ("," +:+ LF +:+ "  " +:+ exportName +:+ LF +:+ "};")
          computedGeneratedContainer
    | None => fresh
    end
  else fresh.

(** The argument object of [updateFileWithExports]. *)
Record UpdateArgs := {
  pathToFileWithExports : string;
  exportName : string;
  importString : string
}.

(** The file system maps the paths that exist to the text they hold. *)
Definition updateFileWithExports (fs : gmap string string) (args : UpdateArgs)
    : gmap string string :=
  match fs !! pathToFileWithExports args with
  | Some data =>
      <[pathToFileWithExports args :=
          updatedText (exportName args) (importString args) data]> fs
  | None => fs
  end.

(** The pattern built from [exportName]:
    [(\n\s\sNAME(.|)|import (NAME|{ NAME }).+;\n+(?!ex))].
    The name is spliced into the pattern source; it is read here as
    literal text.  That is what the source denotes for a plain name, one
    made of letters, digits and underscores; a name with pattern
    operators (a dot, a dollar sign, a bar) is outside this reading, and
    the statements about removal are made for plain names. *)
Definition entryPattern (exportName : string) : regex :=
  Group 1
    (Alt
       (Seq (Lit LF)
          (Seq (Class isWhiteSpace)
             (Seq (Class isWhiteSpace)
                (Seq (Lit exportName) (Group 2 (Alt (Class isDot) Eps))))))
       (Seq (Lit "import ")
          (Seq (Group 3 (Alt (Lit exportName) (Lit ("{ " +:+ exportName +:+ " }"))))
             (Seq (Plus isDot)
                (Seq (Lit ";")
                   (Seq (Plus (Ascii.eqb newline)) (NotAhead (Lit "ex")))))))).

Definition deletedText (exportName data : string) : string :=
  replaceAll (entryPattern exportName) "" data.

Section Delete.

(** The formatter run on the file after the patch; what it does to a
    text is left open.  The source puts the path, unquoted, at the end of
    a shell command line: the formatter is run on that one file when the
    shell reads the path as one word, and [runPrettier] stands for that
    case. *)
Variable prettier : string -> string.

Definition runPrettier (fs : gmap string string) (pathToFile : string)
    : gmap string string :=
  match fs !! pathToFile with
  | Some text => <[pathToFile := prettier text]> fs
  | None => fs
  end.

Definition deleteFromFileWithExports (fs : gmap string string)
    (pathToFileWithExports exportName : string) : gmap string string :=
  match fs !! pathToFileWithExports with
  | Some data =>
      let fs := <[pathToFileWithExports := deletedText exportName data]> fs in
      runPrettier fs pathToFileWithExports
  | None => fs
  end.

End Delete.

(** Sample data: an aggregator file that exports [FooBar], and the
    import line of a module [Foo]. *)
Definition importFoo : string := "import Foo from './Foo';" +:+ LF.

Definition fooBarFile : string :=
  "import FooBar from './FooBar';" +:+ LF +:+ LF
  +:+ "export default {" +:+ LF +:+ "  FooBar" +:+ LF +:+ "};" +:+ LF.

Definition addFoo (path : string) : UpdateArgs :=
  {| pathToFileWithExports := path; exportName := "Foo"; importString := importFoo |}.

End ExportFile.

(** ** Package names and symbolic links *)

Module Packages.

Import PathResolver Template.

(** A call of the shell library, with its arguments as they are passed. *)
Inductive ShellCall :=
| Cp (options source dest : string)
| Ln (options source dest : string)
| Rm (paths : list string).

Section Calls.

Variable BASE_PATH : string.
Variable R : Renderers.

(** [shell.cp('-R', `${templatesPath}/${location}/*`, destinationPath)] *)
Definition copyFiles (destinationPath templatesPath location : string) : ShellCall :=
  Cp "-R" (templatesPath +:+ "/" +:+ location +:+ "/*") destinationPath.

Definition computeModulePackageName (location : string) (options : Options)
    (moduleName : string) : string :=
  if old options
  then "./" +:+ moduleName
  else "@module/" +:+ decamelize R "-" moduleName +:+ "-" +:+ location.

Definition addSymlink (location moduleName : string) : ShellCall :=
  Ln "-s"
    (BASE_PATH +:+ "/modules/" +:+ moduleName +:+ "/" +:+ location)
    (BASE_PATH +:+ "/node_modules/@module/" +:+ decamelize R "-" moduleName
       +:+ "-" +:+ location).

Definition removeSymlink (location moduleName : string) : ShellCall :=
  Rm [BASE_PATH +:+ "/modules/" +:+ moduleName +:+ "/" +:+ location;
      BASE_PATH +:+ "/node_modules/@module/" +:+ decamelize R "-" moduleName
        +:+ "-" +:+ location].

End Calls.

End Packages.

(** ** Names of the recognized kinds *)

Module FieldKinds.

Import FieldType.

(** The text that [generateField] writes for a recognized kind. *)
Definition kindName (k : Ctor) : string :=
  match k with
  | CBoolean => "Boolean"
  | CID => "ID"
  | CInt => "Int"
  | CFloat => "Float"
  | CString => "String"
  | CDate => "Date"
  | CDateTime => "DateTime"
  | CTime => "Time"
  | COther _ => ""
  end.

End FieldKinds.

(** ** The layout of an export file *)

Module Layout.

Import Template ExportFile.

(** The characters of a plain name: letters, digits and the underscore. *)
Definition isNameChar (c : ascii) : bool :=
  let n := nat_of_ascii c in
  (Nat.leb 48 n && Nat.leb n 57) || (Nat.leb 65 n && Nat.leb n 90)
  || (Nat.leb 97 n && Nat.leb n 122) || Nat.eqb n 95.

Fixpoint allChars (p : ascii -> bool) (s : string) : bool :=
  match s with
  | EmptyString => true
  | String c s' => p c && allChars p s'
  end.

Definition plainName (n : string) : bool :=
  match n with
  | EmptyString => false
  | _ => allChars isNameChar n
  end.

(** The paths that a shell reads as one word and a command as one
    operand: letters, digits, underscores, dots, slashes and hyphens, not
    beginning with a hyphen.  On such a path the command line of
    [runPrettier] names that one file. *)
Definition isPathChar (c : ascii) : bool :=
  isNameChar c || Ascii.eqb c "."%char || Ascii.eqb c "/"%char || Ascii.eqb c "-"%char.

Definition shellWord (path : string) : bool :=
  match path with
  | EmptyString => false
  | String c _ => negb (Ascii.eqb c "-"%char) && allChars isPathChar path
  end.

(** The text ends with a character of a plain name. *)
Fixpoint endsWithNameChar (s : string) : bool :=
  match s with
  | EmptyString => false
  | String c EmptyString => isNameChar c
  | String _ s' => endsWithNameChar s'
  end.

(** The import line of a module that is imported under its own name. *)
Definition importLine (n : string) : string :=
  "import " +:+ n +:+ " from './" +:+ n +:+ "';" +:+ LF.

Fixpoint imports (names : list string) : string :=
  match names with
  | [] => EmptyString
  | n :: ns => importLine n +:+ imports ns
  end.

Definition keyLines (names : list string) : string :=
  join ("," +:+ LF) (map (fun n => "  " +:+ n) names).

(** An export file in the layout that [updateFileWithExports] keeps: the
    import lines, an empty line, and the default-export block with one
    key on each line. *)
Definition exportFileText (names : list string) : string :=
  imports names +:+ LF +:+ "export default {" +:+ LF
  +:+ keyLines names +:+ LF +:+ "};".








Definition addName (path n : string) : UpdateArgs :=
  {| pathToFileWithExports := path; exportName := n; importString := importLine n |}.

(** One call of [updateFileWithExports] after the other, for each name. *)
Definition addNames (fs : gmap string string) (path : string) (names : list string)
    : gmap string string :=
  fold_left (fun fs n => updateFileWithExports fs (addName path n)) names fs.

End Layout.

(** * Properties *)

Import PathResolver FieldType Template ExportFile.

(** ** Path resolver *)

Lemma split_nonempty (sep : ascii) (s : string) : split sep s <> [].
Proof.
  induction s as [|c s IH]; simpl; [discriminate|].
  destruct (Ascii.eqb c sep); [discriminate|].
  destruct (split sep s); discriminate.
Qed.

(** The leading segment is a real segment of the location, never the
    [undefined] of a missing array element. *)
Lemma segment_is_head (location : string) :
  exists rest, split "-"%char location = segment location :: rest.
Proof.
  unfold segment. destruct (split "-"%char location) as [|seg rest] eqn:E.
  - now apply split_nonempty in E.
  - now exists rest.
Qed.

(** C2, as the code has it: with [old] set the path of ['server'] and
    ['Billing'] has the legacy form, without it the per-module form; for
    an empty module name the location ['server'] also takes the legacy
    form, ending in [/src/modules/], and the package-src form is what a
    location such as ['client'] gets. *)
Theorem computeModulesPath_forms (BASE_PATH : string) :
  computeModulesPath BASE_PATH "server" {| old := true |} "Billing"
    = BASE_PATH +:+ "/packages/server/src/modules/Billing"
  /\ computeModulesPath BASE_PATH "server" {| old := false |} "Billing"
    = BASE_PATH +:+ "/modules/Billing/server"
  /\ computeModulesPath BASE_PATH "server" {| old := false |} ""
    = BASE_PATH +:+ "/packages/server/src/modules/"
  /\ computeModulesPath BASE_PATH "client" {| old := false |} ""
    = BASE_PATH +:+ "/packages/client/src/".
Proof. repeat split; reflexivity. Qed.

(** C2 as stated fails on its third call: the result for ['server']
    with an empty module name is not the package-src path. *)
Lemma computeModulesPath_server_empty_not_package_src :
  computeModulesPath "/repo" "server" {| old := false |} ""
    <> "/repo/packages/server/src/".
Proof. vm_compute. discriminate. Qed.

(** C5, as the code has it: two locations with the same leading segment
    get the same package path, and the same modules path whenever [old]
    is set or the module name is empty; in the per-module layout the
    modules path ends in the whole location. *)
Theorem paths_depend_on_segment (BASE_PATH : string) (l1 l2 : string)
    (options : Options) (moduleName : string) :
  segment l1 = segment l2 ->
  computePackagePath BASE_PATH l1 = computePackagePath BASE_PATH l2
  /\ (old options = true \/ moduleName = "" ->
      computeModulesPath BASE_PATH l1 options moduleName
      = computeModulesPath BASE_PATH l2 options moduleName)
  /\ (old options = false -> moduleName <> "" ->
      computeModulesPath BASE_PATH l1 options moduleName
      = BASE_PATH +:+ "/modules/" +:+ moduleName +:+ "/" +:+ l1).
Proof.
  intros Hseg. split; [|split].
  - unfold computePackagePath. now rewrite Hseg.
  - intros Hcase. unfold computeModulesPath. rewrite Hseg.
    destruct Hcase as [Hold | Hname].
    + rewrite Hold. reflexivity.
    + subst moduleName. simpl String.eqb.
      destruct (old options || (true && String.eqb (segment l2) "server")); reflexivity.
  - intros Hold Hname. unfold computeModulesPath. rewrite Hold.
    apply String.eqb_neq in Hname. rewrite Hname. reflexivity.
Qed.

Lemma paths_depend_on_segment_witness :
  segment "server" = segment "server-old"
  /\ computePackagePath "/repo" "server" = computePackagePath "/repo" "server-old"
  /\ computeModulesPath "/repo" "server" {| old := true |} "Billing"
     = computeModulesPath "/repo" "server-old" {| old := true |} "Billing".
Proof.
  split; [reflexivity|].
  destruct (paths_depend_on_segment "/repo" "server" "server-old"
              {| old := true |} "Billing" eq_refl) as [Hpkg [Hmod _]].
  split; [exact Hpkg|]. apply Hmod. left. reflexivity.
Defined.

(** C5 as stated fails in the per-module layout, where the whole
    location is the last component of the path. *)
Lemma computeModulesPath_keeps_location_suffix :
  segment "server" = segment "server-old"
  /\ computeModulesPath "/repo" "server" {| old := false |} "Billing"
     <> computeModulesPath "/repo" "server-old" {| old := false |} "Billing".
Proof. split; [reflexivity|]. vm_compute. discriminate. Qed.

(** ** Field-type mapper *)

Lemma matchesNone_hasTypeOf (value : SchemaField) (k : Ctor) :
  matchesNone value = true -> In k recognized -> hasTypeOf value k = false.
Proof.
  unfold matchesNone. rewrite forallb_forall. intros H Hk.
  apply H in Hk. now apply negb_true_iff in Hk.
Qed.

(** Without a match the type part of the result stays empty, so the
    result is the marker alone or nothing. *)
Lemma generateField_unmatched (value : SchemaField) (update : bool) :
  matchesNone value = true ->
  generateField value update
  = if negb update && negb (optional value) then "!" else "".
Proof.
  intros H. unfold generateField.
  rewrite !(matchesNone_hasTypeOf value) by (assumption || (simpl; tauto)).
  reflexivity.
Qed.

(** C3, as the code has it: a field whose type matches no recognized
    kind maps to the empty string when the call is for an update or the
    field is optional. *)
Theorem generateField_unmatched_empty (value : SchemaField) (update : bool) :
  matchesNone value = true ->
  update = true \/ optional value = true ->
  generateField value update = "".
Proof.
  intros H Hflag. rewrite generateField_unmatched by assumption.
  destruct Hflag as [-> | ->]; [reflexivity|].
  now rewrite andb_false_r.
Qed.

Lemma generateField_unmatched_empty_witness :
  matchesNone (jsonField true) = true
  /\ generateField (jsonField true) false = "".
Proof.
  split; [reflexivity|].
  apply (generateField_unmatched_empty (jsonField true) false);
    [reflexivity | right; reflexivity].
Defined.

(** C3 as stated fails for a required field outside an update: the
    result is the marker, not the empty string. *)
Lemma generateField_unmatched_required_not_empty :
  matchesNone (jsonField false) = true
  /\ generateField (jsonField false) false <> "".
Proof. split; [reflexivity|]. vm_compute. discriminate. Qed.

(** C10: a required field outside an update whose type matches no
    recognized kind maps to the marker alone. *)
Theorem generateField_unmatched_required (value : SchemaField) (update : bool) :
  matchesNone value = true ->
  update = false ->
  optional value = false ->
  generateField value update = "!".
Proof.
  intros H -> Hopt. rewrite generateField_unmatched by assumption.
  now rewrite Hopt.
Qed.

Lemma generateField_unmatched_required_witness :
  matchesNone (jsonField false) = true
  /\ generateField (jsonField false) false = "!".
Proof.
  split; [reflexivity|].
  apply (generateField_unmatched_required (jsonField false) false); reflexivity.
Defined.

(** ** Export-file patcher *)

(** C9: on a path that does not exist [updateFileWithExports] writes
    nothing; the file system is left as it was. *)
Theorem updateFileWithExports_absent (fs : gmap string string) (args : UpdateArgs) :
  fs !! pathToFileWithExports args = None ->
  updateFileWithExports fs args = fs.
Proof. intros H. unfold updateFileWithExports. now rewrite H. Qed.

Lemma updateFileWithExports_absent_witness :
  (∅ : gmap string string) !! pathToFileWithExports (addFoo "index.js") = None
  /\ updateFileWithExports ∅ (addFoo "index.js") = ∅.
Proof.
  split; [apply lookup_empty|].
  apply (updateFileWithExports_absent ∅ (addFoo "index.js")). apply lookup_empty.
Defined.

(** What is written over a file that holds no import terminator, or at
    most one character once trimmed. *)
Lemma updatedText_fresh (exportName importString data : string) :
  String.length (trim data) <= 1 \/ lastIndexOf "';" (trim data) = None ->
  updatedText exportName importString data
  = importString +:+ exportGraphqlContainer exportName.
Proof.
  intros H. unfold updatedText.
  destruct (Nat.ltb 1 (String.length (trim data))) eqn:Hlen; [|reflexivity].
  apply Nat.ltb_lt in Hlen. destruct H as [H | H]; [lia|].
  now rewrite H.
Qed.

(** C1, as the code has it: on a path that does not exist nothing is
    created; over a file that exists and, once trimmed, has at most one
    character or no import terminator, the call writes the import string
    followed by a line break and the block made of the line
    [export default {], the export name alone on a line behind two
    blanks, and the line [};]. *)
Theorem updateFileWithExports_fresh (fs : gmap string string) (args : UpdateArgs) :
  (fs !! pathToFileWithExports args = None ->
   updateFileWithExports fs args !! pathToFileWithExports args = None)
  /\ (forall data,
        fs !! pathToFileWithExports args = Some data ->
        String.length (trim data) <= 1 \/ lastIndexOf "';" (trim data) = None ->
        updateFileWithExports fs args
        = <[pathToFileWithExports args :=
              importString args +:+ LF +:+ "export default {" +:+ LF
              +:+ "  " +:+ exportName args +:+ LF +:+ "};" +:+ LF]> fs).
Proof.
  split.
  - intros H. unfold updateFileWithExports. now rewrite H.
  - intros data Hdata Hshape. unfold updateFileWithExports. rewrite Hdata.
    now rewrite updatedText_fresh.
Qed.

Lemma updateFileWithExports_fresh_witness :
  updateFileWithExports ∅ (addFoo "index.js") !! "index.js" = None
  /\ updateFileWithExports {[ "index.js" := "export default {};" ]} (addFoo "index.js")
     = <[ "index.js" := "import Foo from './Foo';" +:+ LF +:+ LF
                        +:+ "export default {" +:+ LF +:+ "  Foo" +:+ LF
                        +:+ "};" +:+ LF ]>
         {[ "index.js" := "export default {};" ]}.
Proof.
  split.
  - apply (proj1 (updateFileWithExports_fresh ∅ (addFoo "index.js"))).
    apply lookup_empty.
  - apply (proj2 (updateFileWithExports_fresh
                    {[ "index.js" := "export default {};" ]} (addFoo "index.js"))
             "export default {};").
    + apply lookup_singleton_eq.
    + right. reflexivity.
Defined.

(** C1 as stated fails: after the call on a path that does not exist
    the file is still missing. *)
Lemma updateFileWithExports_absent_not_created :
  (∅ : gmap string string) !! "index.js" = None
  /\ updateFileWithExports ∅ (addFoo "index.js") !! "index.js"
     <> Some ("import Foo from './Foo';" +:+ LF +:+ LF
              +:+ "export default {" +:+ LF +:+ "  Foo" +:+ LF +:+ "};" +:+ LF).
Proof.
  split; [apply lookup_empty|].
  unfold updateFileWithExports. cbn [pathToFileWithExports addFoo].
  rewrite !lookup_empty. discriminate.
Qed.

(** C7: on a file that exists and is empty, adding [Foo] with its import
    line writes exactly the import line, a blank line and the block
    [export default { Foo };] laid out over three lines. *)
Theorem updateFileWithExports_empty_file (fs : gmap string string) (path : string) :
  fs !! path = Some "" ->
  updateFileWithExports fs
    {| pathToFileWithExports := path; exportName := "Foo";
       importString := "import Foo from './Foo';" +:+ LF |}
  = <[path := "import Foo from './Foo';" +:+ LF +:+ LF
              +:+ "export default {" +:+ LF +:+ "  Foo" +:+ LF +:+ "};" +:+ LF]> fs.
Proof.
  intros H. unfold updateFileWithExports. simpl pathToFileWithExports.
  rewrite H. reflexivity.
Qed.

Lemma updateFileWithExports_empty_file_witness :
  ({[ "index.js" := "" ]} : gmap string string) !! "index.js" = Some ""
  /\ updateFileWithExports {[ "index.js" := "" ]} (addFoo "index.js") !! "index.js"
     = Some ("import Foo from './Foo';" +:+ LF +:+ LF
             +:+ "export default {" +:+ LF +:+ "  Foo" +:+ LF +:+ "};" +:+ LF).
Proof.
  split; [apply lookup_singleton_eq|].
  unfold addFoo, importFoo.
  rewrite (updateFileWithExports_empty_file {[ "index.js" := "" ]} "index.js")
    by apply lookup_singleton_eq.
  apply lookup_insert_eq.
Defined.

(** Adding [Foo] to [fooBarFile] puts its import behind the import of
    [FooBar] and its key behind the key [FooBar]. *)
Lemma add_text :
  updatedText "Foo" importFoo fooBarFile
  = "import FooBar from './FooBar';" +:+ LF
    +:+ "import Foo from './Foo';" +:+ LF +:+ LF
    +:+ "export default {" +:+ LF +:+ "  FooBar," +:+ LF +:+ "  Foo" +:+ LF +:+ "};".
Proof. vm_compute. reflexivity. Qed.

(** The text of [fooBarFile] after [Foo] has been added and removed
    again, before the formatter runs: the import of [FooBar] is gone and
    its key has lost its first four letters. *)
Lemma add_then_delete_text :
  deletedText "Foo" (updatedText "Foo" importFoo fooBarFile)
  = LF +:+ "export default {ar," +:+ LF +:+ "};".
Proof. vm_compute. reflexivity. Qed.

(** C6 at a file that exports [FooBar]: adding [Foo] and removing it
    again leaves a file without the import of [FooBar] and with the key
    [ar] where [FooBar] was, whatever the formatter does afterwards. *)
Theorem add_then_delete_damages_longer_name (prettier : string -> string) :
  deleteFromFileWithExports prettier
    (updateFileWithExports {[ "index.js" := fooBarFile ]} (addFoo "index.js"))
    "index.js" "Foo"
  = {[ "index.js" := prettier (LF +:+ "export default {ar," +:+ LF +:+ "};") ]}.
Proof.
  unfold updateFileWithExports, deleteFromFileWithExports, runPrettier.
  simpl pathToFileWithExports. simpl exportName. simpl importString.
  rewrite lookup_singleton_eq. rewrite !lookup_insert_eq.
  rewrite add_then_delete_text.
  rewrite !insert_insert_eq. apply insert_singleton_eq.
Qed.

(** ** String facts *)

Section StringFacts.

Lemma append_cons (c : ascii) (s t : string) : String c s +:+ t = String c (s +:+ t).
Proof. reflexivity. Qed.

Lemma append_nil_l (s : string) : "" +:+ s = s.
Proof. reflexivity. Qed.

Lemma append_nil_r (s : string) : s +:+ "" = s.
Proof.
  induction s as [|c s IH]; [reflexivity|].
  now rewrite append_cons, IH.
Qed.

Lemma append_assoc (a b c : string) : (a +:+ b) +:+ c = a +:+ b +:+ c.
Proof.
  induction a as [|x a IH]; [reflexivity|].
  now rewrite !append_cons, IH.
Qed.

Lemma length_append (a b : string) :
  String.length (a +:+ b) = String.length a + String.length b.
Proof.
  induction a as [|x a IH]; [reflexivity|].
  rewrite append_cons. cbn [String.length]. now rewrite IH.
Qed.

Lemma startsWith_append (p rest : string) : startsWith p (p +:+ rest) = Some rest.
Proof.
  induction p as [|x p IH]; [reflexivity|].
  rewrite append_cons. cbn [startsWith]. now rewrite Ascii.eqb_refl.
Qed.

(** A text that begins with [p] is [p] and what follows it. *)
Lemma startsWith_eq (p s r : string) : startsWith p s = Some r -> s = p +:+ r.
Proof.
  revert s. induction p as [|a p IH]; intros s H.
  - cbn [startsWith] in H. now injection H as ->.
  - destruct s as [|c s]; cbn [startsWith] in H; [discriminate|].
    destruct (Ascii.eqb a c) eqn:E; [|discriminate].
    apply Ascii.eqb_eq in E. subst c. rewrite append_cons. f_equal. now apply IH.
Qed.

(** A failed match at the start of [a] that was not cut short by the
    end of [a] fails in the same way on every extension of [a]. *)
Lemma startsWith_extend (p a y : string) :
  String.length p <= String.length a ->
  startsWith p a = None -> startsWith p (a +:+ y) = None.
Proof.
  revert a. induction p as [|x p IH]; intros a Hlen H; [discriminate|].
  destruct a as [|b a]; cbn [String.length] in Hlen; [lia|].
  rewrite append_cons. cbn [startsWith] in *.
  destruct (Ascii.eqb x b); [|reflexivity].
  apply IH; [lia | assumption].
Qed.

Lemma take_append (a b : string) : take (String.length a) (a +:+ b) = a.
Proof.
  unfold take. induction a as [|x a IH].
  - destruct b; reflexivity.
  - rewrite append_cons. cbn [String.length substring]. now rewrite IH.
Qed.

Lemma drop_append (a b : string) (n : nat) :
  drop (String.length a + n) (a +:+ b) = drop n b.
Proof.
  induction a as [|x a IH]; [reflexivity|].
  rewrite append_cons. exact IH.
Qed.

Lemma contains_append (c : ascii) (a b : string) :
  contains c (a +:+ b) = contains c a || contains c b.
Proof.
  induction a as [|x a IH]; [reflexivity|].
  rewrite append_cons. cbn [contains]. now rewrite IH, orb_assoc.
Qed.

(** A replacement text without a dollar sign stands for itself. *)
Lemma expand_plain (m : nat) (caps : captures) (matched before after t : string) :
  contains dollar t = false -> expand m caps matched before after t = t.
Proof.
  induction t as [|c t IH]; intros H; [reflexivity|].
  cbn [contains] in H. apply orb_false_iff in H as [Hc Ht].
  cbn [expand]. rewrite Hc. now rewrite IH.
Qed.

End StringFacts.

(** ** Template materializer: the renaming walk *)

Lemma indexOf_Module (pre post : string) :
  occurs "Module" (pre +:+ "Modul") = false ->
  indexOf "Module" (pre +:+ "Module" +:+ post) = Some (String.length pre).
Proof.
  induction pre as [|c pre IH]; intros H.
  - reflexivity.
  - change (String c pre +:+ "Modul") with (String c (pre +:+ "Modul")) in H.
    change (String c pre +:+ "Module" +:+ post)
      with (String c (pre +:+ "Module" +:+ post)).
    cbn [occurs] in H. cbn [indexOf].
    destruct (startsWith "Module" (String c (pre +:+ "Modul"))) eqn:Hhead;
      [discriminate|].
    assert (Hext : startsWith "Module" (String c (pre +:+ "Module" +:+ post)) = None).
    { change (pre +:+ "Module" +:+ post) with (pre +:+ "Modul" +:+ "e" +:+ post).
      rewrite <- append_assoc.
      change (String c ((pre +:+ "Modul") +:+ "e" +:+ post))
        with (String c (pre +:+ "Modul") +:+ "e" +:+ post).
      apply startsWith_extend; [|assumption].
      cbn [String.length]. rewrite length_append. simpl. lia. }
    rewrite Hext. rewrite (IH H). reflexivity.
Qed.

(** A name is rewritten at the first occurrence of [Module] only; the
    text after it, with any further occurrence, is kept. *)
Lemma renamed_first_occurrence (R : Renderers) (moduleName pre post : string) :
  occurs "Module" (pre +:+ "Modul") = false ->
  contains dollar (pascalize R moduleName) = false ->
  renamed R moduleName (pre +:+ "Module" +:+ post)
  = pre +:+ pascalize R moduleName +:+ post.
Proof.
  intros Hfirst Hplain. unfold renamed, replaceFirst.
  rewrite indexOf_Module by assumption.
  rewrite take_append.
  change (pre +:+ "Module" +:+ post) with (pre +:+ ("Module" +:+ post)).
  rewrite drop_append. change (drop (String.length "Module") ("Module" +:+ post)) with post.
  now rewrite expand_plain.
Qed.


Lemma ls_In (tree : list Entry) (entry : Entry) :
  In entry tree -> isHidden (name entry) = false -> In entry (ls tree).
Proof.
  intros Hin Hshown. unfold ls. apply filter_In. split; [assumption|].
  now rewrite Hshown.
Qed.

(** C4, as the code has it: for every regular file of the destination
    tree that is not hidden, the renaming walk asks for a move to the name
    in which the first occurrence of [Module] is replaced by the
    Pascal-case rendering of the module name (a rendering without dollar
    signs); what follows that occurrence is kept as it is. *)
Theorem renameCalls_first_occurrence (R : Renderers) (moduleName : string)
    (tree : list Entry) (entry : Entry) (pre post : string) :
  In entry tree ->
  isFile entry = true ->
  isHidden (name entry) = false ->
  name entry = pre +:+ "Module" +:+ post ->
  occurs "Module" (pre +:+ "Modul") = false ->
  contains dollar (pascalize R moduleName) = false ->
  In (name entry, pre +:+ pascalize R moduleName +:+ post)
     (renameCalls R moduleName (ls tree)).
Proof.
  intros Hin Hfile Hshown Hname Hfirst Hplain. unfold renameCalls.
  apply in_flat_map. exists entry. split; [now apply ls_In|].
  rewrite Hfile. left. f_equal.
  rewrite Hname. now apply renamed_first_occurrence.
Qed.

Lemma renameCalls_first_occurrence_witness :
  In viewEntry [hiddenEntry; viewEntry]
  /\ isHidden (name viewEntry) = false
  /\ In ("components/ModuleView.jsx", "components/ChatView.jsx")
        (renameCalls camelRenderers "chat" (ls [hiddenEntry; viewEntry])).
Proof.
  split; [right; left; reflexivity|]. split; [reflexivity|].
  apply (renameCalls_first_occurrence camelRenderers "chat" [hiddenEntry; viewEntry]
           viewEntry "components/" "View.jsx");
    first [right; left; reflexivity | reflexivity].
Defined.

(** C4 as stated fails on a name that holds [Module] twice: the move
    asked for keeps the second occurrence.  It also fails on a hidden
    file, which the listing leaves out: no move is asked for it. *)
Lemma renameCalls_keeps_second_occurrence :
  renameCalls camelRenderers "foo"
    (ls [{| name := "ModuleModule.js"; isFile := true; content := "" |}])
  = [("ModuleModule.js", "FooModule.js")]
  /\ occurs "Module" "FooModule.js" = true
  /\ renameCalls camelRenderers "foo" (ls [hiddenEntry]) = [].
Proof. repeat split; reflexivity. Qed.

(** ** Template materializer: the substitution walk *)

Section ScanFacts.

Variable r : regex.
Variable t : string.

Lemma scan_miss (b : string) (c : ascii) (s : string) :
  exec r (String c s) = None ->
  scan r t 0 b (String c s) = String c (scan r t 0 (b +:+ String c "") s).
Proof. intros H. cbn [scan]. now rewrite H. Qed.

Lemma scan_end_miss (b : string) :
  exec r "" = None -> scan r t 0 b "" = "".
Proof. intros H. cbn [scan]. now rewrite H. Qed.

Lemma scan_hit (b : string) (c : ascii) (s : string) (caps : captures)
    (rest : string) (n : nat) :
  exec r (String c s) = Some (caps, rest) ->
  String.length (String c s) - String.length rest = S n ->
  scan r t 0 b (String c s)
  = expand (groupCount r) caps (take (S n) (String c s)) b rest t
    +:+ scan r t n (b +:+ String c "") s.
Proof. intros H Hn. cbn [scan]. rewrite H, Hn. reflexivity. Qed.

(** The characters of a match are passed over without a new attempt. *)
Lemma scan_skip (x b rest : string) :
  scan r t (String.length x) b (x +:+ rest) = scan r t 0 (b +:+ x) rest.
Proof.
  revert b. induction x as [|c x IH]; intros b.
  - now rewrite append_nil_r, append_nil_l.
  - rewrite append_cons. cbn [String.length scan]. rewrite IH.
    now rewrite append_assoc.
Qed.

End ScanFacts.

Section LiteralToken.

(** A placeholder: a dollar sign followed by [x]. *)
Variable x : string.
Variable t : string.

Let token : string := String dollar x.

Lemma exec_token_mismatch (c : ascii) (s : string) :
  Ascii.eqb c dollar = false -> exec (Lit token) (String c s) = None.
Proof.
  intros H. unfold exec, token. cbn [run startsWith].
  rewrite Ascii.eqb_sym. now rewrite H.
Qed.

Lemma exec_token_end : exec (Lit token) "" = None.
Proof. reflexivity. Qed.

Lemma exec_token_here (rest : string) :
  exec (Lit token) (token +:+ rest) = Some ([], rest).
Proof. unfold exec. cbn [run]. now rewrite startsWith_append. Qed.

(** Plain text is copied, character by character. *)
Lemma scan_plain_prefix (p b rest : string) :
  contains dollar p = false ->
  scan (Lit token) t 0 b (p +:+ rest) = p +:+ scan (Lit token) t 0 (b +:+ p) rest.
Proof.
  revert b. induction p as [|c p IH]; intros b H.
  - now rewrite append_nil_r, !append_nil_l.
  - cbn [contains] in H. apply orb_false_iff in H as [Hc Hp].
    rewrite !append_cons. rewrite scan_miss by now apply exec_token_mismatch.
    rewrite IH by assumption. now rewrite append_assoc.
Qed.

Lemma scan_plain (p b : string) :
  contains dollar p = false -> scan (Lit token) t 0 b p = p.
Proof.
  intros H. rewrite <- (append_nil_r p) at 1.
  rewrite scan_plain_prefix by assumption.
  rewrite scan_end_miss by apply exec_token_end. apply append_nil_r.
Qed.

(** At an occurrence of the placeholder the replacement is written and
    the scan goes on behind the occurrence. *)
Lemma scan_token (b rest : string) :
  contains dollar t = false ->
  scan (Lit token) t 0 b (token +:+ rest)
  = t +:+ scan (Lit token) t 0 (b +:+ token) rest.
Proof.
  intros Ht. unfold token at 2. rewrite append_cons.
  rewrite (scan_hit (Lit token) t b dollar (x +:+ rest) [] rest (String.length x)).
  - rewrite expand_plain by assumption. rewrite scan_skip.
    rewrite append_assoc. reflexivity.
  - apply (exec_token_here rest).
  - cbn [String.length]. rewrite length_append. lia.
Qed.

Lemma join_cons2 (sep p q : string) (ps : list string) :
  join sep (p :: q :: ps) = p +:+ sep +:+ join sep (q :: ps).
Proof. reflexivity. Qed.

(** Pieces of plain text joined by the placeholder become the same
    pieces joined by the replacement. *)
Lemma scan_pieces (pieces : list string) (b : string) :
  contains dollar t = false ->
  (forall p, In p pieces -> contains dollar p = false) ->
  scan (Lit token) t 0 b (join token pieces) = join t pieces.
Proof.
  intros Ht. revert b. induction pieces as [|p ps IH]; intros b Hp.
  - apply scan_end_miss, exec_token_end.
  - destruct ps as [|q ps].
    + apply scan_plain, Hp. now left.
    + rewrite !join_cons2.
      rewrite scan_plain_prefix by (apply Hp; now left).
      rewrite scan_token by assumption.
      rewrite IH; [reflexivity|]. intros p' Hin. apply Hp. now right.
Qed.

End LiteralToken.

(** *** Lines *)

Section Lines.

Lemma split_plain (l : string) :
  contains newline l = false -> split newline l = [l].
Proof.
  induction l as [|c l IH]; intros H; [reflexivity|].
  cbn [contains] in H. apply orb_false_iff in H as [Hc Hl].
  cbn [split]. rewrite Hc, IH by assumption. reflexivity.
Qed.

Lemma split_line (l rest : string) :
  contains newline l = false ->
  split newline (l +:+ LF +:+ rest) = l :: split newline rest.
Proof.
  induction l as [|c l IH]; intros H; [reflexivity|].
  cbn [contains] in H. apply orb_false_iff in H as [Hc Hl].
  rewrite append_cons. cbn [split]. rewrite Hc, IH by assumption. reflexivity.
Qed.

(** Splitting undoes joining when no line holds a line break. *)
Lemma split_join (ls : list string) :
  ls <> [] ->
  (forall l, In l ls -> contains newline l = false) ->
  split newline (join LF ls) = ls.
Proof.
  induction ls as [|l ls IH]; intros Hne H; [contradiction|].
  destruct ls as [|l2 ls].
  - apply split_plain, H. now left.
  - rewrite join_cons2. rewrite split_line by (apply H; now left).
    f_equal. apply IH; [discriminate|]. intros l' Hin. apply H. now right.
Qed.

Lemma join_cons_head (sep : string) (c : ascii) (seg : string) (segs : list string) :
  join sep (String c seg :: segs) = String c (join sep (seg :: segs)).
Proof. destruct segs; reflexivity. Qed.

(** Joining undoes splitting, for every text. *)
Lemma join_split (text : string) : join LF (split newline text) = text.
Proof.
  induction text as [|c text IH]; [reflexivity|].
  cbn [split]. destruct (Ascii.eqb c newline) eqn:Hc.
  - apply Ascii.eqb_eq in Hc. subst c.
    destruct (split newline text) as [|l ls] eqn:E.
    + now apply split_nonempty in E.
    + rewrite join_cons2, IH. reflexivity.
  - destruct (split newline text) as [|l ls] eqn:E.
    + now apply split_nonempty in E.
    + now rewrite join_cons_head, IH.
Qed.

Lemma contains_split (c : ascii) (text l : string) :
  contains c text = false -> In l (split newline text) -> contains c l = false.
Proof.
  revert l. induction text as [|a text IH]; intros l H Hin.
  - destruct Hin as [<- | []]. reflexivity.
  - cbn [contains] in H. apply orb_false_iff in H as [Ha Ht].
    cbn [split] in Hin. destruct (Ascii.eqb a newline).
    + destruct Hin as [<- | Hin]; [reflexivity | now apply IH].
    + destruct (split newline text) as [|seg segs] eqn:E.
      * now apply split_nonempty in E.
      * destruct Hin as [<- | Hin].
        -- cbn [contains]. rewrite Ha. apply IH; [assumption | now left].
        -- apply IH; [assumption | now right].
Qed.

Lemma contains_join (c : ascii) (sep : string) (ps : list string) :
  contains c sep = false ->
  (forall p, In p ps -> contains c p = false) ->
  contains c (join sep ps) = false.
Proof.
  intros Hsep. induction ps as [|p ps IH]; intros H; [reflexivity|].
  destruct ps as [|q ps].
  - apply H. now left.
  - rewrite join_cons2, !contains_append, Hsep.
    rewrite (H p) by now left. rewrite IH; [reflexivity|].
    intros p' Hin. apply H. now right.
Qed.

Lemma map_fixed {A : Type} (f : A -> A) (l : list A) :
  (forall a, In a l -> f a = a) -> map f l = l.
Proof.
  induction l as [|a l IH]; intros H; [reflexivity|].
  cbn [map]. rewrite H by now left. f_equal. apply IH.
  intros a' Hin. apply H. now right.
Qed.

End Lines.

(** *** One [sed] call *)

Section Sed.

Lemma occurs_startsWith (p s : string) :
  occurs p s = false -> startsWith p s = None.
Proof.
  destruct s as [|c s]; cbn [occurs]; destruct (startsWith p _); congruence.
Qed.

(** A text in which the pattern does not occur goes through unchanged. *)
Lemma scan_absent (p t s b : string) :
  occurs p s = false -> scan (Lit p) t 0 b s = s.
Proof.
  revert b. induction s as [|c s IH]; intros b H.
  - apply scan_end_miss. unfold exec. cbn [run].
    now rewrite (occurs_startsWith _ _ H).
  - rewrite scan_miss.
    + f_equal. apply IH. cbn [occurs] in H.
      destruct (startsWith p (String c s)); [discriminate | assumption].
    + unfold exec. cbn [run]. now rewrite (occurs_startsWith _ _ H).
Qed.

Lemma occurs_plain (x s : string) :
  contains dollar s = false -> occurs (String dollar x) s = false.
Proof.
  induction s as [|c s IH]; intros H; [reflexivity|].
  cbn [contains] in H. apply orb_false_iff in H as [Hc Hs].
  cbn [occurs startsWith]. rewrite Ascii.eqb_sym, Hc. now apply IH.
Qed.

(** A text without dollar signs holds no placeholder to replace. *)
Lemma sed_plain (x t text : string) :
  contains dollar text = false ->
  sed (Lit (String dollar x)) t text = text.
Proof.
  intros H. unfold sed. rewrite map_fixed; [apply join_split|].
  intros l Hin. apply scan_absent, occurs_plain.
  now apply (contains_split dollar text).
Qed.

End Sed.

(** *** The six calls on a template text *)

Section TemplateText.

Lemma placeholder_shape (token : string) :
  In token placeholders ->
  contains newline token = false /\ exists x, token = String dollar x.
Proof.
  intros H. cbn [placeholders In] in H.
  repeat (destruct H as [<- | H]; [split; [reflexivity | eexists; reflexivity]|]).
  contradiction.
Qed.

Lemma templateLines_inv (token : string) (lines : list (list string)) :
  templateLines token lines = true ->
  lines <> []
  /\ forall pieces, In pieces lines ->
       (forall p, In p pieces ->
          contains dollar p = false /\ contains newline p = false)
       /\ (forall other, In other placeholders ->
             String.eqb other token = false ->
             occurs other (join token pieces) = false).
Proof.
  intros H. destruct lines as [|first rest]; [discriminate|].
  split; [discriminate|]. unfold templateLines in H.
  rewrite forallb_forall in H. intros pieces Hin. specialize (H pieces Hin).
  unfold templateLine in H. apply andb_true_iff in H as [Hplain Hother].
  rewrite forallb_forall in Hplain, Hother. split.
  - intros p Hp. specialize (Hplain p Hp). unfold plainPiece in Hplain.
    apply andb_true_iff in Hplain as [H1 H2].
    now apply negb_true_iff in H1, H2.
  - intros other Ho Hne. specialize (Hother other Ho). rewrite Hne in Hother.
    now apply negb_true_iff in Hother.
Qed.

Lemma templateText_lines (token : string) (lines : list (list string)) :
  In token placeholders ->
  templateLines token lines = true ->
  split newline (templateText token lines) = map (join token) lines.
Proof.
  intros Htok H. apply templateLines_inv in H as [Hne H].
  destruct (placeholder_shape token Htok) as [Hnl _].
  unfold templateText. apply split_join.
  - destruct lines; [contradiction | discriminate].
  - intros l Hin. apply in_map_iff in Hin as [pieces [<- Hin]].
    apply contains_join; [assumption|].
    intros p Hp. now apply (H pieces Hin).
Qed.

(** The call for another placeholder leaves the text as it is. *)
Lemma sed_absent (other t token : string) (lines : list (list string)) :
  In token placeholders ->
  templateLines token lines = true ->
  In other placeholders ->
  String.eqb other token = false ->
  sed (Lit other) t (templateText token lines) = templateText token lines.
Proof.
  intros Htok H Ho Hne. unfold sed. rewrite templateText_lines by assumption.
  apply templateLines_inv in H as [_ H].
  rewrite map_fixed; [reflexivity|].
  intros l Hin. apply in_map_iff in Hin as [pieces [<- Hin]].
  apply scan_absent. now apply (H pieces Hin).
Qed.

(** The call for the placeholder of the text replaces each occurrence. *)
Lemma sed_token (t token : string) (lines : list (list string)) :
  In token placeholders ->
  templateLines token lines = true ->
  contains dollar t = false ->
  sed (Lit token) t (templateText token lines) = join LF (map (join t) lines).
Proof.
  intros Htok H Ht. unfold sed. rewrite templateText_lines by assumption.
  apply templateLines_inv in H as [_ H].
  destruct (placeholder_shape token Htok) as [_ [x ->]].
  rewrite map_map. f_equal. apply map_ext_in. intros pieces Hin.
  apply scan_pieces; [assumption|].
  intros p Hp. now apply (H pieces Hin).
Qed.

Lemma replaced_plain (t token : string) (lines : list (list string)) :
  templateLines token lines = true ->
  contains dollar t = false ->
  contains dollar (join LF (map (join t) lines)) = false.
Proof.
  intros H Ht. apply templateLines_inv in H as [_ H].
  apply contains_join; [reflexivity|].
  intros l Hin. apply in_map_iff in Hin as [pieces [<- Hin]].
  apply contains_join; [assumption|].
  intros p Hp. now apply (H pieces Hin).
Qed.

(** On a template text of one placeholder the six calls amount to the
    replacement of that placeholder. *)
Lemma substituted_templateText (R : Renderers) (moduleName token : string)
    (lines : list (list string)) :
  In token placeholders ->
  templateLines token lines = true ->
  contains dollar (rendering R moduleName token) = false ->
  substituted R moduleName (templateText token lines)
  = join LF (map (join (rendering R moduleName token)) lines).
Proof.
  intros Htok H Hr.
  pose proof (replaced_plain _ _ _ H Hr) as Hplain.
  pose proof (sed_token _ _ _ Htok H Hr) as Hown.
  assert (Hskip : forall other t, In other placeholders ->
            String.eqb other token = false ->
            sed (Lit other) t (templateText token lines) = templateText token lines)
    by (intros; now apply sed_absent).
  unfold substituted.
  cbn [placeholders In] in Htok.
  repeat (destruct Htok as [<- | Htok];
    [ cbn [rendering String.eqb Ascii.eqb Bool.eqb] in *;
      repeat (rewrite Hskip by (first [reflexivity | cbn [placeholders In]; tauto]));
      rewrite Hown;
      repeat (rewrite (sed_plain _ _ _ Hplain));
      reflexivity
    | ]).
  contradiction.
Qed.

End TemplateText.

(** *** Templates with several placeholders *)

Section MixedTemplate.

(** Two texts without dollar signs that are followed by a dollar sign
    in the same text are the same. *)
Lemma plain_prefix_unique (a b u v : string) :
  contains dollar a = false -> contains dollar b = false ->
  a +:+ String dollar u = b +:+ String dollar v -> a = b.
Proof.
  revert b. induction a as [|c a IH]; intros b Ha Hb H.
  - destruct b as [|d b]; [reflexivity|].
    rewrite append_nil_l, append_cons in H. injection H as Hd _.
    cbn [contains] in Hb. rewrite <- Hd, Ascii.eqb_refl in Hb. discriminate.
  - cbn [contains] in Ha. apply orb_false_iff in Ha as [Hc Ha].
    destruct b as [|d b].
    + rewrite append_nil_l, append_cons in H. injection H as Hd _.
      rewrite Hd, Ascii.eqb_refl in Hc. discriminate.
    + cbn [contains] in Hb. apply orb_false_iff in Hb as [_ Hb].
      rewrite !append_cons in H. injection H as -> H.
      f_equal. now apply IH.
Qed.

(** A text without dollar signs at the start of a text is a prefix of
    what stands in front of the first dollar sign of that text. *)
Lemma plain_prefix (a more x z : string) :
  contains dollar a = false ->
  a +:+ more = x +:+ String dollar z -> exists d, x = a +:+ d.
Proof.
  revert x. induction a as [|c a IH]; intros x Ha H.
  - now exists x.
  - cbn [contains] in Ha. apply orb_false_iff in Ha as [Hc Ha].
    destruct x as [|d x].
    + rewrite append_nil_l, append_cons in H. injection H as Hd _.
      rewrite Hd, Ascii.eqb_refl in Hc. discriminate.
    + rewrite !append_cons in H. injection H as -> H.
      destruct (IH x Ha H) as [e ->]. now exists e.
Qed.

(** Every placeholder is a name between two dollar signs. *)
Lemma placeholder_name (token : string) :
  In token placeholders ->
  exists x, token = String dollar (x +:+ "$")
            /\ contains dollar x = false /\ contains newline x = false.
Proof.
  intros H. cbn [placeholders In] in H.
  destruct H as [<- | H]; [now exists "module"|].
  destruct H as [<- | H]; [now exists "_module"|].
  destruct H as [<- | H]; [now exists "-module"|].
  destruct H as [<- | H]; [now exists "Module"|].
  destruct H as [<- | H]; [now exists "MoDuLe"|].
  destruct H as [<- | H]; [now exists "MODULE"|].
  contradiction.
Qed.

Lemma isPlaceholder_In (s : string) : isPlaceholder s = true <-> In s placeholders.
Proof.
  unfold isPlaceholder. rewrite existsb_exists. split.
  - intros [t [Hin Heq]]. apply String.eqb_eq in Heq. now subst t.
  - intros Hin. exists s. split; [assumption | apply String.eqb_refl].
Qed.

Lemma isSlot_cases (s : string) :
  isSlot s = true -> In s placeholders \/ s = "$".
Proof.
  unfold isSlot. intros H. apply orb_true_iff in H as [H | H].
  - left. now apply isPlaceholder_In.
  - right. now apply String.eqb_eq.
Qed.

(** The rank tells the placeholders apart, and what is no placeholder
    has rank six. *)
Lemma rank_spec (s : string) :
  (rank s < 6 /\ In s placeholders)
  \/ (rank s = 6 /\ isPlaceholder s = false).
Proof.
  unfold rank, isPlaceholder. cbn [placeholders existsb In].
  destruct (String.eqb s "$module$") eqn:E0;
    [apply String.eqb_eq in E0; subst s; left; split; [lia | tauto]|].
  destruct (String.eqb s "$_module$") eqn:E1;
    [apply String.eqb_eq in E1; subst s; left; split; [lia | tauto]|].
  destruct (String.eqb s "$-module$") eqn:E2;
    [apply String.eqb_eq in E2; subst s; left; split; [lia | tauto]|].
  destruct (String.eqb s "$Module$") eqn:E3;
    [apply String.eqb_eq in E3; subst s; left; split; [lia | tauto]|].
  destruct (String.eqb s "$MoDuLe$") eqn:E4;
    [apply String.eqb_eq in E4; subst s; left; split; [lia | tauto]|].
  destruct (String.eqb s "$MODULE$") eqn:E5;
    [apply String.eqb_eq in E5; subst s; left; split; [lia | tauto]|].
  right. split; reflexivity.
Qed.

Lemma rank_inj (s t : string) :
  In t placeholders -> rank s = rank t -> s = t.
Proof.
  intros Ht H.
  assert (Hs : In s placeholders).
  { destruct (rank_spec s) as [[_ Hs] | [Hs _]]; [assumption|].
    destruct (rank_spec t) as [[Hlt _] | [_ Hno]].
    - lia.
    - apply isPlaceholder_In in Ht. congruence. }
  cbn [placeholders In] in Hs, Ht.
  repeat (destruct Hs as [<- | Hs];
          [repeat (destruct Ht as [<- | Ht];
                   [first [reflexivity | discriminate H]|]); contradiction|]).
  contradiction.
Qed.

Variable R : Renderers.
Variable moduleName : string.

Hypothesis renderings_plain :
  forall token, In token placeholders ->
    plainPiece (rendering R moduleName token) = true.

Lemma plainPiece_inv (p : string) :
  plainPiece p = true -> contains dollar p = false /\ contains newline p = false.
Proof.
  unfold plainPiece. intros H. apply andb_true_iff in H as [H1 H2].
  now apply negb_true_iff in H1, H2.
Qed.

(** The dollar sign in front of the text between two slots begins no
    placeholder, whatever calls have been made. *)
Lemma gap_no_match (k : nat) (token slot text : string)
    (rest : list (string * string)) (tail : string) :
  k <= 6 ->
  In token placeholders ->
  contains dollar text = false ->
  itemsOK rest = true ->
  gapsOK R moduleName ((slot, text) :: rest) = true ->
  lineTail tail ->
  startsWith token (String dollar (text +:+ itemsText (shown R moduleName k) rest +:+ tail))
  = None.
Proof.
  intros Hk Htok Htext Hrest Hgaps Htail.
  destruct (placeholder_name token Htok) as [x [-> [Hx Hxn]]].
  destruct (startsWith _ _) as [z|] eqn:E; [exfalso | reflexivity].
  apply startsWith_eq in E. rewrite !append_cons in E. injection E as E.
  rewrite append_assoc in E. change ("$" +:+ z) with (String dollar z) in E.
  destruct rest as [|[next text'] rest].
  - cbn [itemsText] in E. rewrite append_nil_l in E.
    destruct Htail as [-> | [more ->]].
    + rewrite append_nil_r in E. rewrite E, contains_append in Htext.
      cbn [contains] in Htext. rewrite Ascii.eqb_refl in Htext.
      now rewrite orb_true_r in Htext.
    + change (text +:+ String newline more)
        with (text +:+ (String newline "" +:+ more)) in E.
      rewrite <- append_assoc in E.
      apply plain_prefix in E as [d Hd].
      * rewrite Hd, !contains_append in Hxn. cbn [contains] in Hxn.
        rewrite Ascii.eqb_refl in Hxn. cbn in Hxn.
        now rewrite orb_true_r in Hxn.
      * rewrite contains_append, Htext. reflexivity.
  - cbn [gapsOK] in Hgaps. apply andb_true_iff in Hgaps as [Hgaps _].
    apply andb_true_iff in Hgaps as [Hname Hopen].
    apply negb_true_iff in Hname, Hopen.
    cbn [itemsOK forallb fst snd] in Hrest.
    apply andb_true_iff in Hrest as [Hnext _].
    apply andb_true_iff in Hnext as [Hslot _].
    cbn [itemsText] in E. unfold shown in E.
    destruct (Nat.ltb (rank next) k) eqn:Hrank.
    + apply Nat.ltb_lt in Hrank.
      assert (Hin : In next placeholders).
      { destruct (rank_spec next) as [[_ H] | [H _]]; [assumption | lia]. }
      destruct (plainPiece_inv _ (renderings_plain next Hin)) as [Hr _].
      rewrite (proj2 (isPlaceholder_In next) Hin) in Hopen. cbn [andb] in Hopen.
      rewrite !append_assoc in E. rewrite <- (append_assoc text) in E.
      apply plain_prefix in E as [d Hd];
        [|now rewrite contains_append, Htext, Hr].
      unfold opensPlaceholder in Hopen.
      assert (Hyes : existsb (fun token =>
                 match startsWith (String dollar (text +:+ rendering R moduleName next))
                         token with
                 | Some _ => true
                 | None => false
                 end) placeholders = true); [|congruence].
      apply existsb_exists. exists (String dollar (x +:+ "$")).
      split; [assumption|]. rewrite Hd.
      rewrite append_assoc.
      change (String dollar ((text +:+ rendering R moduleName next) +:+ d +:+ "$"))
        with (String dollar (text +:+ rendering R moduleName next) +:+ d +:+ "$").
      now rewrite startsWith_append.
    + assert (Hdollar : exists y, next = String dollar y).
      { destruct (isSlot_cases next Hslot) as [Hin | ->].
        - destruct (placeholder_name next Hin) as [y [-> _]]. eexists; reflexivity.
        - eexists; reflexivity. }
      destruct Hdollar as [y ->].
      rewrite !append_cons in E.
      apply plain_prefix_unique in E; [|assumption..].
      subst text.
      apply isPlaceholder_In in Htok. congruence.
Qed.


Lemma itemsOK_cons (slot text : string) (rest : list (string * string)) :
  itemsOK ((slot, text) :: rest) = true ->
  isSlot slot = true /\ contains dollar text = false
  /\ contains newline text = false /\ itemsOK rest = true.
Proof.
  cbn [itemsOK forallb fst snd]. intros H.
  apply andb_true_iff in H as [H Hrest]. apply andb_true_iff in H as [Hslot Htext].
  destruct (plainPiece_inv _ Htext). tauto.
Qed.

Lemma gapsOK_tail (item : string * string) (rest : list (string * string)) :
  gapsOK R moduleName (item :: rest) = true -> gapsOK R moduleName rest = true.
Proof.
  destruct item as [slot text]. destruct rest as [|[next text'] rest]; [reflexivity|].
  intros H. change (gapsOK R moduleName ((slot, text) :: (next, text') :: rest))
    with (negb (isPlaceholder (String dollar (text +:+ "$")))
          && negb (isPlaceholder next
                   && opensPlaceholder (text +:+ rendering R moduleName next))
          && gapsOK R moduleName ((next, text') :: rest)) in H.
  now apply andb_true_iff in H as [_ H].
Qed.

(** One call on the slots of a line: the placeholder of the call gives
    way to its rendering and everything else stays. *)
Lemma scan_items (token : string) (items : list (string * string)) (b : string) :
  In token placeholders ->
  itemsOK items = true ->
  gapsOK R moduleName items = true ->
  scan (Lit token) (rendering R moduleName token) 0 b
    (itemsText (shown R moduleName (rank token)) items)
  = itemsText (shown R moduleName (S (rank token))) items.
Proof.
  intros Htok. revert b.
  assert (Hk : rank token < 6).
  { destruct (rank_spec token) as [[H _] | [_ H]]; [assumption|].
    apply isPlaceholder_In in Htok. congruence. }
  destruct (plainPiece_inv _ (renderings_plain token Htok)) as [Hr _].
  destruct (placeholder_name token Htok) as [x [Hshape [Hx _]]].
  induction items as [|[slot text] rest IH]; intros b Hok Hgaps.
  - rewrite Hshape. apply scan_end_miss, exec_token_end.
  - apply itemsOK_cons in Hok as [Hslot [Htext [_ Hrest]]].
    pose proof (gapsOK_tail _ _ Hgaps) as Hgaps'.
    pose proof (gap_no_match (rank token) token slot text rest ""
                  (Nat.lt_le_incl _ _ Hk) Htok Htext Hrest Hgaps (or_introl eq_refl))
      as Hgap.
    rewrite append_nil_r in Hgap.
    cbn [itemsText]. unfold shown at 1 3.
    destruct (lt_eq_lt_dec (rank slot) (rank token)) as [[Hlt | Heq] | Hgt].
    + rewrite (proj2 (Nat.ltb_lt _ _) Hlt).
      rewrite (proj2 (Nat.ltb_lt (rank slot) (S (rank token)))) by lia.
      assert (Hin : In slot placeholders).
      { destruct (rank_spec slot) as [[_ H] | [H _]]; [assumption | lia]. }
      destruct (plainPiece_inv _ (renderings_plain slot Hin)) as [Hrs _].
      rewrite Hshape.
      rewrite scan_plain_prefix by assumption.
      rewrite scan_plain_prefix by assumption.
      rewrite <- Hshape. now rewrite IH.
    + apply (rank_inj slot token Htok) in Heq. subst slot.
      rewrite Nat.ltb_irrefl.
      rewrite (proj2 (Nat.ltb_lt (rank token) (S (rank token)))) by lia.
      rewrite Hshape at 1 3.
      rewrite scan_token by assumption.
      rewrite scan_plain_prefix by assumption.
      rewrite <- Hshape. now rewrite IH.
    + rewrite (proj2 (Nat.ltb_ge _ _)) by lia.
      rewrite (proj2 (Nat.ltb_ge (rank slot) (S (rank token)))) by lia.
      assert (Hstep : forall b',
                scan (Lit token) (rendering R moduleName token) 0 b'
                  (String dollar (text +:+ itemsText (shown R moduleName (rank token)) rest))
                = String dollar
                    (text +:+ itemsText (shown R moduleName (S (rank token))) rest)).
      { intros b'. rewrite scan_miss by (unfold exec; cbn [run]; now rewrite Hgap).
        f_equal. rewrite Hshape. rewrite scan_plain_prefix by assumption.
        rewrite <- Hshape. now rewrite IH. }
      destruct (isSlot_cases slot Hslot) as [Hin | ->].
      * destruct (placeholder_name slot Hin) as [y [Hslotshape [Hy _]]].
        assert (Hopen : startsWith token
                          (slot +:+ text
                           +:+ itemsText (shown R moduleName (rank token)) rest) = None).
        { destruct (startsWith token
                      (slot +:+ text
                       +:+ itemsText (shown R moduleName (rank token)) rest))
            as [z|] eqn:E; [exfalso | reflexivity].
          apply startsWith_eq in E. rewrite Hshape, Hslotshape in E.
          rewrite !append_cons in E. injection E as E.
          rewrite !append_assoc in E.
          change ("$" +:+ ?u) with (String dollar u) in E.
          apply plain_prefix_unique in E; [|assumption..].
          subst y. rewrite <- Hshape in Hslotshape. subst slot. lia. }
        rewrite Hslotshape in *. rewrite !append_cons.
        rewrite scan_miss by (unfold exec; cbn [run]; rewrite append_cons in Hopen;
                              now rewrite Hopen).
        f_equal. rewrite !append_assoc.
        rewrite Hshape at 1. rewrite scan_plain_prefix by assumption.
        rewrite <- Hshape.
        change ("$" +:+ ?u) with (String dollar u).
        now rewrite Hstep.
      * change ("$" +:+ ?u) with (String dollar u). apply Hstep.
Qed.


Lemma lineOK_inv (line : Line) :
  lineOK R moduleName line = true ->
  contains dollar (fst line) = false /\ contains newline (fst line) = false
  /\ itemsOK (snd line) = true /\ gapsOK R moduleName (snd line) = true.
Proof.
  unfold lineOK. intros H. apply andb_true_iff in H as [H Hgaps].
  apply andb_true_iff in H as [Hpre Hitems].
  destruct (plainPiece_inv _ Hpre). tauto.
Qed.

(** One call on a line. *)
Lemma replaceAll_line (token : string) (line : Line) :
  In token placeholders ->
  lineOK R moduleName line = true ->
  replaceAll (Lit token) (rendering R moduleName token)
    (lineText (shown R moduleName (rank token)) line)
  = lineText (shown R moduleName (S (rank token))) line.
Proof.
  intros Htok Hline. apply lineOK_inv in Hline as [Hpre [_ [Hitems Hgaps]]].
  unfold replaceAll, lineText.
  destruct (placeholder_name token Htok) as [x [Hshape _]].
  rewrite Hshape at 1. rewrite scan_plain_prefix by assumption.
  rewrite <- Hshape. now rewrite scan_items.
Qed.

Lemma shown_newline (k : nat) (slot : string) :
  isSlot slot = true -> contains newline (shown R moduleName k slot) = false.
Proof.
  intros Hslot. unfold shown.
  destruct (isSlot_cases slot Hslot) as [Hin | ->].
  - destruct (Nat.ltb (rank slot) k).
    + now destruct (plainPiece_inv _ (renderings_plain slot Hin)).
    + now destruct (placeholder_shape slot Hin).
  - destruct (Nat.ltb (rank "$") k) eqn:E; [|reflexivity].
    destruct k as [|[|[|[|[|[|k]]]]]]; try discriminate E.
    cbn [rendering String.eqb Ascii.eqb Bool.eqb].
    apply (plainPiece_inv _ (renderings_plain "$MODULE$"
             ltac:(cbn [placeholders In]; tauto))).
Qed.

Lemma lineText_newline (k : nat) (line : Line) :
  lineOK R moduleName line = true ->
  contains newline (lineText (shown R moduleName k) line) = false.
Proof.
  intros Hline. apply lineOK_inv in Hline as [_ [Hpre [Hitems _]]].
  unfold lineText. rewrite contains_append, Hpre. cbn [orb].
  induction (snd line) as [|[slot text] rest IH]; [reflexivity|].
  apply itemsOK_cons in Hitems as [Hslot [_ [Htext Hrest]]].
  cbn [itemsText]. rewrite !contains_append.
  rewrite (shown_newline k slot Hslot), Htext. now apply IH.
Qed.

(** One call on a file. *)
Lemma sed_step (token : string) (lines : list Line) :
  In token placeholders ->
  lines <> [] ->
  (forall line, In line lines -> lineOK R moduleName line = true) ->
  sed (Lit token) (rendering R moduleName token)
    (fileText (shown R moduleName (rank token)) lines)
  = fileText (shown R moduleName (S (rank token))) lines.
Proof.
  intros Htok Hne Hlines. unfold sed, fileText.
  rewrite split_join.
  - rewrite map_map. f_equal. apply map_ext_in. intros line Hin.
    apply replaceAll_line; [assumption | now apply Hlines].
  - destruct lines; [contradiction | discriminate].
  - intros l Hin. apply in_map_iff in Hin as [line [<- Hin]].
    apply lineText_newline. now apply Hlines.
Qed.

Lemma fileText_ext (f g : string -> string) (lines : list Line) :
  (forall slot, f slot = g slot) -> fileText f lines = fileText g lines.
Proof.
  intros H. unfold fileText. f_equal. apply map_ext. intros [pre items].
  unfold lineText. cbn [fst snd]. f_equal.
  induction items as [|[slot text] rest IH]; [reflexivity|].
  cbn [itemsText]. now rewrite H, IH.
Qed.

Lemma shown_all (slot : string) :
  shown R moduleName 6 slot = rendered R moduleName slot.
Proof.
  unfold shown, rendered.
  destruct (rank_spec slot) as [[Hlt Hin] | [Heq Hno]].
  - rewrite (proj2 (Nat.ltb_lt _ _) Hlt).
    now rewrite (proj2 (isPlaceholder_In slot) Hin).
  - now rewrite Heq, Hno.
Qed.

(** The six calls on a template file replace every placeholder by its
    rendering and leave the other dollar signs where they are. *)
Lemma substituted_fileText (lines : list Line) :
  lines <> [] ->
  (forall line, In line lines -> lineOK R moduleName line = true) ->
  substituted R moduleName (fileText (fun slot => slot) lines)
  = fileText (rendered R moduleName) lines.
Proof.
  intros Hne Hlines.
  assert (Hstep : forall token, In token placeholders ->
            sed (Lit token) (rendering R moduleName token)
              (fileText (shown R moduleName (rank token)) lines)
            = fileText (shown R moduleName (S (rank token))) lines)
    by (intros; now apply sed_step).
  pose proof (Hstep "$module$" ltac:(cbn [placeholders In]; tauto)) as H0.
  pose proof (Hstep "$_module$" ltac:(cbn [placeholders In]; tauto)) as H1.
  pose proof (Hstep "$-module$" ltac:(cbn [placeholders In]; tauto)) as H2.
  pose proof (Hstep "$Module$" ltac:(cbn [placeholders In]; tauto)) as H3.
  pose proof (Hstep "$MoDuLe$" ltac:(cbn [placeholders In]; tauto)) as H4.
  pose proof (Hstep "$MODULE$" ltac:(cbn [placeholders In]; tauto)) as H5.
  cbn [rank rendering String.eqb Ascii.eqb Bool.eqb] in H0, H1, H2, H3, H4, H5.
  rewrite (fileText_ext (fun slot => slot) (shown R moduleName 0)) by reflexivity.
  unfold substituted. rewrite H0, H1, H2, H3, H4, H5.
  apply fileText_ext, shown_all.
Qed.

Lemma occurs_skip_plain (x p rest : string) :
  contains dollar p = false ->
  occurs (String dollar x) (p +:+ rest) = occurs (String dollar x) rest.
Proof.
  induction p as [|c p IH]; intros H; [reflexivity|].
  cbn [contains] in H. apply orb_false_iff in H as [Hc Hp].
  rewrite append_cons. cbn [occurs startsWith].
  rewrite Ascii.eqb_sym, Hc. now apply IH.
Qed.

(** No placeholder is left among the slots of a line. *)
Lemma occurs_items (token : string) (items : list (string * string)) (tail : string) :
  In token placeholders ->
  itemsOK items = true ->
  gapsOK R moduleName items = true ->
  lineTail tail ->
  occurs token (itemsText (shown R moduleName 6) items +:+ tail) = occurs token tail.
Proof.
  intros Htok Hok Hgaps Htail.
  destruct (placeholder_name token Htok) as [x [Hshape _]].
  induction items as [|[slot text] rest IH]; [reflexivity|].
  apply itemsOK_cons in Hok as [Hslot [Htext [_ Hrest]]].
  pose proof (gapsOK_tail _ _ Hgaps) as Hgaps'.
  pose proof (gap_no_match 6 token slot text rest tail
                (Nat.le_refl 6) Htok Htext Hrest Hgaps Htail) as Hgap.
  cbn [itemsText]. rewrite !append_assoc.
  rewrite shown_all. unfold rendered.
  destruct (isPlaceholder slot) eqn:Hp.
  - apply isPlaceholder_In in Hp.
    destruct (plainPiece_inv _ (renderings_plain slot Hp)) as [Hrs _].
    rewrite Hshape. rewrite !occurs_skip_plain by assumption.
    rewrite <- Hshape. now apply IH.
  - destruct (isSlot_cases slot Hslot) as [Hin | ->].
    + apply isPlaceholder_In in Hin. congruence.
    + change ("$" +:+ ?u) with (String dollar u).
      cbn [occurs]. rewrite Hgap.
      rewrite Hshape. rewrite occurs_skip_plain by assumption.
      rewrite <- Hshape. now apply IH.
Qed.

Lemma occurs_fileText (token : string) (lines : list Line) :
  In token placeholders ->
  (forall line, In line lines -> lineOK R moduleName line = true) ->
  occurs token (fileText (shown R moduleName 6) lines) = false.
Proof.
  intros Htok Hlines. unfold fileText.
  destruct (placeholder_name token Htok) as [x [Hshape _]].
  induction lines as [|line lines IH]; [now rewrite Hshape|].
  destruct (lineOK_inv line (Hlines line (or_introl eq_refl)))
    as [Hpre [_ [Hitems Hgaps]]].
  destruct lines as [|line2 lines].
  - cbn [map join]. unfold lineText.
    rewrite Hshape. rewrite occurs_skip_plain by assumption. rewrite <- Hshape.
    rewrite <- (append_nil_r (itemsText _ _)).
    rewrite occurs_items; [now rewrite Hshape | assumption.. | now left].
  - cbn [map] in *. rewrite join_cons2. unfold lineText at 1.
    rewrite !append_assoc.
    rewrite Hshape. rewrite occurs_skip_plain by assumption. rewrite <- Hshape.
    rewrite occurs_items; [|assumption..|right; eexists; reflexivity].
    rewrite Hshape.
    rewrite (occurs_skip_plain _ LF) by reflexivity.
    rewrite <- Hshape. apply IH. intros l Hin. apply Hlines. now right.
Qed.

End MixedTemplate.

Lemma templateFile_inv (R : Renderers) (moduleName : string) (lines : list Line) :
  templateFile R moduleName lines = true ->
  lines <> []
  /\ (forall line, In line lines -> lineOK R moduleName line = true)
  /\ (forall token, In token placeholders ->
        plainPiece (rendering R moduleName token) = true).
Proof.
  unfold templateFile. intros H. apply andb_true_iff in H as [Hlines Hrend].
  rewrite forallb_forall in Hrend.
  destruct lines as [|line lines]; [discriminate|].
  rewrite forallb_forall in Hlines. repeat split; [discriminate | assumption..].
Qed.

(** C8, as the code has it: take a regular file that is not hidden, as
    it stands after the renaming walk, given line by line as texts
    without dollar signs around slots, a slot being a placeholder or a
    dollar sign that belongs to none, and a module name whose six
    renderings hold no dollar sign and no line break.  If the text
    between two slots of a line is never the name of a placeholder and, in
    front of a placeholder, never becomes the beginning of such a name
    when the rendering of that placeholder is put behind it, then the
    substitution walk replaces every placeholder by its rendering, leaves
    the other dollar signs in place, and no placeholder occurs in the
    file afterwards. *)
Theorem renameFiles_clears_placeholders (R : Renderers)
    (mv : string -> string -> list Entry -> list Entry)
    (moduleName : string) (lines : list Line) (tree : list Entry) (entry : Entry) :
  In entry (renamePass R mv moduleName tree) ->
  isFile entry = true ->
  isHidden (name entry) = false ->
  content entry = fileText (fun slot => slot) lines ->
  templateFile R moduleName lines = true ->
  exists entry',
    In entry' (renameFiles R mv moduleName tree)
    /\ name entry' = name entry
    /\ content entry' = fileText (rendered R moduleName) lines
    /\ forall token, In token placeholders -> occurs token (content entry') = false.
Proof.
  intros Hin Hfile Hshown Htext Htemplate.
  apply templateFile_inv in Htemplate as [Hne [Hlines Hrend]].
  exists {| name := name entry; isFile := true;
            content := substituted R moduleName (content entry) |}.
  split; [|split; [reflexivity|split]].
  - unfold renameFiles, substitutePass.
    apply in_map_iff. exists entry. split; [|assumption].
    now rewrite Hfile, Hshown.
  - cbn [content]. rewrite Htext. now apply substituted_fileText.
  - intros token Htok. cbn [content]. rewrite Htext.
    rewrite substituted_fileText by assumption.
    rewrite <- (fileText_ext (shown R moduleName 6)) by apply shown_all.
    now apply occurs_fileText.
Qed.

Lemma renameFiles_clears_placeholders_witness :
  In queryEntry (renamePass camelRenderers moveEntry "chat" [viewEntry; queryEntry])
  /\ templateFile camelRenderers "chat" queryLines = true
  /\ exists entry',
       In entry' (renameFiles camelRenderers moveEntry "chat" [viewEntry; queryEntry])
       /\ name entry' = "query.js"
       /\ content entry'
          = "import Chat from './chat';" +:+ LF
            +:+ "query chat($id: Int!) { chat(id: $id) }"
       /\ forall token, In token placeholders -> occurs token (content entry') = false.
Proof.
  split; [right; left; reflexivity|]. split; [reflexivity|].
  apply (renameFiles_clears_placeholders camelRenderers moveEntry "chat" queryLines
           [viewEntry; queryEntry] queryEntry);
    first [reflexivity | right; left; reflexivity].
Defined.

(** C8 as stated fails on a text where the placeholder stands between
    two dollar signs: for the module name [module] the replacement and
    its neighbours spell the placeholder again, and it is still in the
    file after the walk.  It also fails on a hidden file, which the
    listing leaves out: its text is not rewritten. *)
Lemma renameFiles_leaves_placeholder :
  In "$module$" placeholders
  /\ renameFiles camelRenderers moveEntry "module"
       [{| name := "index.js"; isFile := true; content := "$$module$$" |}]
     = [{| name := "index.js"; isFile := true; content := "$module$" |}]
  /\ occurs "$module$" "$module$" = true
  /\ renameFiles camelRenderers moveEntry "chat" [hiddenEntry] = [hiddenEntry]
  /\ occurs "$module$" (content hiddenEntry) = true.
Proof. split; [left; reflexivity|]. repeat split; reflexivity. Qed.

(** * Further properties *)

Import Packages FieldKinds Layout.

(** ** Path resolver: the leading segment *)

Lemma split_head_spec (sep : ascii) (s seg : string) (segs : list string) :
  split sep s = seg :: segs ->
  contains sep seg = false
  /\ ((segs = [] /\ s = seg)
      \/ exists rest, s = seg +:+ String sep rest /\ segs = split sep rest).
Proof.
  revert seg segs. induction s as [|c s IH]; intros seg segs H.
  - injection H as <- <-. split; [reflexivity | left; split; reflexivity].
  - cbn [split] in H. destruct (Ascii.eqb c sep) eqn:Hc.
    + injection H as <- <-. apply Ascii.eqb_eq in Hc. subst c.
      split; [reflexivity|]. right. exists s. split; reflexivity.
    + destruct (split sep s) as [|seg' segs'] eqn:E;
        [now apply split_nonempty in E|].
      injection H as <- <-. destruct (IH seg' segs' eq_refl) as [Hseg Hshape].
      split; [cbn [contains]; now rewrite Hc|].
      destruct Hshape as [[-> ->] | [rest [-> ->]]].
      * left. split; reflexivity.
      * right. exists rest. split; reflexivity.
Qed.

Lemma split_at_separator (sep : ascii) (l rest : string) :
  contains sep l = false ->
  split sep (l +:+ String sep rest) = l :: split sep rest.
Proof.
  induction l as [|c l IH]; intros H.
  - rewrite append_nil_l. cbn [split]. now rewrite Ascii.eqb_refl.
  - cbn [contains] in H. apply orb_false_iff in H as [Hc Hl].
    rewrite append_cons. cbn [split]. rewrite Hc, IH by assumption. reflexivity.
Qed.

(** X1: the leading segment of a location holds no hyphen, and the
    location is that segment alone or the segment, a hyphen and more. *)
Theorem segment_spec (location : string) :
  contains "-"%char (segment location) = false
  /\ (location = segment location
      \/ exists rest, location = segment location +:+ "-" +:+ rest).
Proof.
  destruct (segment_is_head location) as [segs Hsplit].
  destruct (split_head_spec _ _ _ _ Hsplit) as [Hfree Hshape].
  split; [assumption|].
  destruct Hshape as [[_ Heq] | [rest [Heq _]]].
  - now left.
  - right. now exists rest.
Qed.

(** X2: whatever follows the first hyphen of a location has no effect on
    the package path or on a path in the legacy layout: for a tag without
    a hyphen, the location [tag-suffix] is placed as [tag] is. *)
Theorem location_suffix_ignored (BASE_PATH tag suffix : string) :
  contains "-"%char tag = false ->
  segment (tag +:+ "-" +:+ suffix) = tag
  /\ computePackagePath BASE_PATH (tag +:+ "-" +:+ suffix)
     = BASE_PATH +:+ "/packages/" +:+ tag +:+ "/package.json"
  /\ forall moduleName,
       computeModulesPath BASE_PATH (tag +:+ "-" +:+ suffix) {| old := true |} moduleName
       = BASE_PATH +:+ "/packages/" +:+ tag +:+ "/src/modules/" +:+ moduleName.
Proof.
  intros H.
  assert (Hseg : segment (tag +:+ "-" +:+ suffix) = tag).
  { unfold segment. change ("-" +:+ suffix) with (String "-"%char suffix).
    now rewrite split_at_separator. }
  split; [assumption|]. split.
  - unfold computePackagePath. now rewrite Hseg.
  - intros moduleName. unfold computeModulesPath. cbn [old orb]. now rewrite Hseg.
Qed.

Lemma location_suffix_ignored_witness :
  contains "-"%char "client" = false
  /\ segment "client-react-native" = "client"
  /\ computePackagePath "/repo" "client-react-native" = "/repo/packages/client/package.json".
Proof.
  split; [reflexivity|].
  destruct (location_suffix_ignored "/repo" "client" "react-native" eq_refl)
    as [Hseg [Hpkg _]].
  split; [exact Hseg | exact Hpkg].
Defined.

(** ** Package names and symbolic links *)

(** X3: the link that [addSymlink] asks for lies under [node_modules] at
    the package name that [computeModulePackageName] gives in the new
    layout, and points at the path that [computeModulesPath] gives there
    for the module; [removeSymlink] names the same two paths. *)
Theorem symlink_matches_paths (BASE_PATH : string) (R : Renderers)
    (location moduleName : string) :
  moduleName <> "" ->
  addSymlink BASE_PATH R location moduleName
  = Ln "-s"
      (computeModulesPath BASE_PATH location {| old := false |} moduleName)
      (BASE_PATH +:+ "/node_modules/"
         +:+ computeModulePackageName R location {| old := false |} moduleName)
  /\ removeSymlink BASE_PATH R location moduleName
     = Rm [computeModulesPath BASE_PATH location {| old := false |} moduleName;
           BASE_PATH +:+ "/node_modules/"
             +:+ computeModulePackageName R location {| old := false |} moduleName].
Proof.
  intros Hname. apply String.eqb_neq in Hname.
  unfold addSymlink, removeSymlink, computeModulesPath, computeModulePackageName.
  cbn [old orb]. rewrite Hname. cbn [andb].
  split; reflexivity.
Qed.

Lemma symlink_matches_paths_witness :
  "userProfile" <> ""
  /\ addSymlink "/repo" camelRenderers "server" "userProfile"
     = Ln "-s" "/repo/modules/userProfile/server"
         "/repo/node_modules/@module/user-profile-server".
Proof.
  split; [discriminate|].
  apply (proj1 (symlink_matches_paths "/repo" camelRenderers "server" "userProfile"
                  ltac:(discriminate))).
Defined.

(** ** Field-type mapper: the type part and the marker *)

(** X4: the flags only decide on the marker: the result is the text
    written for an update, followed by [!] when the call is not for an
    update and the field is not optional. *)
Theorem generateField_marker (value : SchemaField) (update : bool) :
  generateField value update
  = generateField value true
    +:+ (if negb update && negb (optional value) then "!" else "").
Proof.
  unfold generateField. cbn [negb andb].
  destruct (negb update && negb (optional value));
    repeat (match goal with
            | |- context [if hasTypeOf value ?k then _ else _] =>
                destruct (hasTypeOf value k)
            end);
    reflexivity.
Qed.

(** X5: the first match wins: the type part is the name of the first
    recognized kind, in the order of the tests, that the type of the
    field is or descends from. *)
Theorem generateField_first_match (value : SchemaField) :
  generateField value true
  = match find (hasTypeOf value) recognized with
    | Some k => kindName k
    | None => ""
    end.
Proof.
  unfold generateField, recognized. cbn [negb andb find].
  repeat (match goal with
          | |- context [if hasTypeOf value ?k then _ else _] =>
              destruct (hasTypeOf value k); [reflexivity|]
          end).
  reflexivity.
Qed.

(** X6: the type part is empty exactly when the type of the field
    matches none of the recognized kinds. *)
Theorem generateField_empty_iff (value : SchemaField) :
  generateField value true = "" <-> matchesNone value = true.
Proof.
  split.
  - intros H. unfold matchesNone, recognized. cbn [forallb].
    unfold generateField in H. cbn [negb andb] in H.
    repeat (match type of H with
            | context [if hasTypeOf value ?k then _ else _] =>
                destruct (hasTypeOf value k); [discriminate|]
            end).
    reflexivity.
  - intros H. now rewrite generateField_unmatched.
Qed.

(** ** Export-file patcher: what is left alone *)

(** X7: [updateFileWithExports] neither creates nor removes a path, and
    the text at every other path is what it was. *)
Theorem updateFileWithExports_frame (fs : gmap string string) (args : UpdateArgs) :
  dom (updateFileWithExports fs args) = dom fs
  /\ forall other, other <> pathToFileWithExports args ->
       updateFileWithExports fs args !! other = fs !! other.
Proof.
  unfold updateFileWithExports.
  destruct (fs !! pathToFileWithExports args) as [data|] eqn:Hdata.
  - split.
    + apply dom_insert_lookup_L. now exists data.
    + intros other Hne. now apply lookup_insert_ne.
  - split; [reflexivity|]. intros other _. reflexivity.
Qed.

Lemma updateFileWithExports_frame_witness :
  updateFileWithExports {[ "a.js" := "x"; "index.js" := fooBarFile ]} (addFoo "index.js")
    !! "a.js"
  = ({[ "a.js" := "x"; "index.js" := fooBarFile ]} : gmap string string) !! "a.js".
Proof.
  apply (proj2 (updateFileWithExports_frame
                  {[ "a.js" := "x"; "index.js" := fooBarFile ]} (addFoo "index.js"))).
  discriminate.
Defined.

(** X8: [deleteFromFileWithExports] does nothing on a path that does not
    exist.  On a path that the shell reads as one word, so that the
    formatter is run on that file only, it neither creates nor removes a
    path, and the text at every other path is what it was. *)
Theorem deleteFromFileWithExports_frame (prettier : string -> string)
    (fs : gmap string string) (path exportName : string) :
  (fs !! path = None -> deleteFromFileWithExports prettier fs path exportName = fs)
  /\ (shellWord path = true ->
      dom (deleteFromFileWithExports prettier fs path exportName) = dom fs
      /\ forall other, other <> path ->
           deleteFromFileWithExports prettier fs path exportName !! other
           = fs !! other).
Proof.
  unfold deleteFromFileWithExports, runPrettier.
  destruct (fs !! path) as [data|] eqn:Hdata.
  - rewrite lookup_insert_eq. rewrite insert_insert_eq.
    split; [discriminate|]. intros _. split.
    + apply dom_insert_lookup_L. now exists data.
    + intros other Hne. now apply lookup_insert_ne.
  - split; [reflexivity|]. intros _. split; [reflexivity|].
    intros other _. reflexivity.
Qed.

Lemma deleteFromFileWithExports_frame_witness :
  ((∅ : gmap string string) !! "index.js" = None
   /\ deleteFromFileWithExports (fun text => text) ∅ "index.js" "Foo" = ∅)
  /\ shellWord "src/index.js" = true
  /\ "src/a.js" <> "src/index.js"
  /\ deleteFromFileWithExports (fun text => text)
       {[ "src/a.js" := "x"; "src/index.js" := fooBarFile ]} "src/index.js" "FooBar"
       !! "src/a.js"
     = ({[ "src/a.js" := "x"; "src/index.js" := fooBarFile ]} : gmap string string)
         !! "src/a.js".
Proof.
  split; [split; [apply lookup_empty|]|].
  - apply (proj1 (deleteFromFileWithExports_frame (fun text => text) ∅ "index.js" "Foo")).
    apply lookup_empty.
  - split; [reflexivity|]. split; [discriminate|].
    apply (proj2 (proj2 (deleteFromFileWithExports_frame (fun text => text)
                           {[ "src/a.js" := "x"; "src/index.js" := fooBarFile ]}
                           "src/index.js" "FooBar") eq_refl)).
    discriminate.
Defined.

(** ** Template materializer: what the walks leave alone *)

(** X12: the renaming walk asks for one move for each regular file, in
    the order of the listing, and for none for a directory. *)
Theorem renameCalls_regular_files (R : Renderers) (moduleName : string)
    (tree : list Entry) :
  map fst (renameCalls R moduleName tree) = map name (List.filter isFile tree).
Proof.
  unfold renameCalls. induction tree as [|entry tree IH]; [reflexivity|].
  cbn [flat_map List.filter]. destruct (isFile entry).
  - cbn [app map fst]. now rewrite IH.
  - exact IH.
Qed.




(** X14: the substitution walk keeps the listing as it is but for the
    text of the regular files: the names, their order and the kinds of
    the entries do not change, and a directory entry is not touched. *)
Theorem substitutePass_keeps_listing (R : Renderers) (moduleName : string)
    (tree : list Entry) :
  map name (substitutePass R moduleName tree) = map name tree
  /\ map isFile (substitutePass R moduleName tree) = map isFile tree
  /\ List.filter (fun entry => negb (isFile entry)) (substitutePass R moduleName tree)
     = List.filter (fun entry => negb (isFile entry)) tree.
Proof.
  unfold substitutePass. induction tree as [|entry tree [IH1 [IH2 IH3]]].
  - repeat split.
  - cbn [map List.filter].
    destruct (isFile entry) eqn:Hfile; destruct (isHidden (name entry));
      cbn [andb negb name isFile List.filter]; rewrite ?Hfile; cbn [negb];
      rewrite IH1, IH2, IH3; repeat split.
Qed.

(** ** Template materializer: a text without placeholders *)

Section Occurrences.

Lemma startsWith_app_some (p a b r : string) :
  startsWith p a = Some r -> startsWith p (a +:+ b) = Some (r +:+ b).
Proof.
  revert a. induction p as [|x p IH]; intros a H.
  - cbn [startsWith] in *. now injection H as ->.
  - destruct a as [|c a]; cbn [startsWith] in H; [discriminate|].
    rewrite append_cons. cbn [startsWith].
    destruct (Ascii.eqb x c); [now apply IH | discriminate].
Qed.

Lemma occurs_cons (p : string) (c : ascii) (s : string) :
  occurs p s = true -> occurs p (String c s) = true.
Proof.
  intros H. cbn [occurs]. now destruct (startsWith p (String c s)).
Qed.

Lemma occurs_app_r (p a b : string) :
  occurs p b = true -> occurs p (a +:+ b) = true.
Proof.
  intros H. induction a as [|c a IH]; [assumption|].
  rewrite append_cons. now apply occurs_cons.
Qed.

Lemma occurs_app_l (p a b : string) :
  occurs p a = true -> occurs p (a +:+ b) = true.
Proof.
  induction a as [|c a IH]; intros H.
  - cbn [occurs] in H. destruct (startsWith p "") as [r|] eqn:E; [|discriminate].
    apply (startsWith_app_some _ _ b) in E. rewrite append_nil_l in *.
    destruct b; cbn [occurs]; now rewrite E.
  - cbn [occurs] in H. rewrite append_cons.
    destruct (startsWith p (String c a)) as [r|] eqn:E.
    + apply (startsWith_app_some _ _ b) in E. rewrite append_cons in E.
      cbn [occurs]. now rewrite E.
    + apply occurs_cons. now apply IH.
Qed.

(** Every segment of a text is a part of the text. *)
Lemma split_decompose (sep : ascii) (text l : string) :
  In l (split sep text) -> exists pre post, text = pre +:+ l +:+ post.
Proof.
  revert l. induction text as [|c text IH]; intros l Hin.
  - destruct Hin as [<- | []]. now exists "", "".
  - cbn [split] in Hin. destruct (Ascii.eqb c sep).
    + destruct Hin as [<- | Hin].
      * now exists "", (String c text).
      * destruct (IH l Hin) as [pre [post ->]]. now exists (String c pre), post.
    + destruct (split sep text) as [|seg segs] eqn:E;
        [now apply split_nonempty in E|].
      destruct Hin as [<- | Hin].
      * destruct (split_head_spec _ _ _ _ E) as [_ [[_ ->] | [rest [-> _]]]].
        -- exists "", "". now rewrite append_nil_l, append_nil_r.
        -- now exists "", (String sep rest).
      * destruct (IH l (or_intror Hin)) as [pre [post ->]].
        now exists (String c pre), post.
Qed.

Lemma occurs_in_line (p text l : string) :
  occurs p text = false -> In l (split newline text) -> occurs p l = false.
Proof.
  intros Habsent Hin. destruct (occurs p l) eqn:Hl; [|reflexivity].
  destruct (split_decompose _ _ _ Hin) as [pre [post Heq]].
  rewrite Heq in Habsent.
  rewrite (occurs_app_r p pre (l +:+ post)) in Habsent; [discriminate|].
  now apply occurs_app_l.
Qed.

(** A call for a text that does not occur leaves the file as it is. *)
Lemma sed_untouched (p t text : string) :
  occurs p text = false -> sed (Lit p) t text = text.
Proof.
  intros H. unfold sed. rewrite map_fixed; [apply join_split|].
  intros l Hin. apply scan_absent. now apply (occurs_in_line p text).
Qed.

End Occurrences.

(** X15: a file in which none of the six placeholders occurs goes
    through the substitution walk unchanged, whatever the module name
    and its renderings are. *)
Theorem substituted_without_placeholder (R : Renderers) (moduleName text : string) :
  (forall token, In token placeholders -> occurs token text = false) ->
  substituted R moduleName text = text.
Proof.
  intros H. unfold substituted.
  rewrite (sed_untouched "$module$" _ text) by (apply H; cbn [placeholders In]; tauto).
  rewrite (sed_untouched "$_module$" _ text) by (apply H; cbn [placeholders In]; tauto).
  rewrite (sed_untouched "$-module$" _ text) by (apply H; cbn [placeholders In]; tauto).
  rewrite (sed_untouched "$Module$" _ text) by (apply H; cbn [placeholders In]; tauto).
  rewrite (sed_untouched "$MoDuLe$" _ text) by (apply H; cbn [placeholders In]; tauto).
  apply sed_untouched. apply H. cbn [placeholders In]. tauto.
Qed.

Lemma substituted_without_placeholder_witness :
  substituted camelRenderers "chat" "const price = '$5'; // $module"
  = "const price = '$5'; // $module".
Proof.
  apply (substituted_without_placeholder camelRenderers "chat").
  intros token Hin. cbn [placeholders In] in Hin.
  repeat (destruct Hin as [<- | Hin]; [reflexivity|]). contradiction.
Defined.

(** ** Template materializer: a file with one placeholder *)

(** X19: take a regular file that is not hidden, as it stands after
    the renaming walk, whose text is, line by line, plain text (no dollar
    sign) between occurrences of one placeholder, with no other
    placeholder in it, and a module name whose rendering for that
    placeholder has no dollar sign.  Then the substitution walk replaces
    every occurrence by the rendering, also where two occurrences stand
    side by side, and no placeholder occurs in the text of the file
    afterwards. *)
Theorem renameFiles_single_placeholder (R : Renderers)
    (mv : string -> string -> list Entry -> list Entry)
    (moduleName token : string) (lines : list (list string))
    (tree : list Entry) (entry : Entry) :
  In token placeholders ->
  In entry (renamePass R mv moduleName tree) ->
  isFile entry = true ->
  isHidden (name entry) = false ->
  content entry = templateText token lines ->
  templateLines token lines = true ->
  contains dollar (rendering R moduleName token) = false ->
  exists entry',
    In entry' (renameFiles R mv moduleName tree)
    /\ name entry' = name entry
    /\ content entry' = join LF (map (join (rendering R moduleName token)) lines)
    /\ forall t, In t placeholders -> occurs t (content entry') = false.
Proof.
  intros Htok Hin Hfile Hshown Htext Hlines Hr.
  exists {| name := name entry; isFile := true;
            content := substituted R moduleName (content entry) |}.
  split; [|split; [reflexivity|split]].
  - unfold renameFiles, substitutePass.
    apply in_map_iff. exists entry. split; [|assumption].
    now rewrite Hfile, Hshown.
  - cbn [content]. rewrite Htext. now apply substituted_templateText.
  - intros t Ht. cbn [content]. rewrite Htext.
    rewrite substituted_templateText by assumption.
    destruct (placeholder_shape t Ht) as [_ [x ->]].
    apply occurs_plain. now apply (replaced_plain _ token).
Qed.

Lemma renameFiles_single_placeholder_witness :
  In "$_module$" placeholders
  /\ In tableEntry (renamePass camelRenderers moveEntry "userProfile" [viewEntry; tableEntry])
  /\ templateLines "$_module$" tableLines = true
  /\ contains dollar (rendering camelRenderers "userProfile" "$_module$") = false
  /\ exists entry',
       In entry' (renameFiles camelRenderers moveEntry "userProfile" [viewEntry; tableEntry])
       /\ name entry' = "sql.js"
       /\ content entry'
          = join LF (map (join (rendering camelRenderers "userProfile" "$_module$"))
                       tableLines)
       /\ forall t, In t placeholders -> occurs t (content entry') = false.
Proof.
  split; [right; left; reflexivity|].
  split; [right; left; reflexivity|].
  split; [reflexivity|]. split; [reflexivity|].
  apply (renameFiles_single_placeholder camelRenderers moveEntry "userProfile"
           "$_module$" tableLines [viewEntry; tableEntry] tableEntry);
    first [reflexivity | right; left; reflexivity].
Defined.

(** ** Export-file patcher: removing a name that is not there *)

Section AbsentName.

Lemma occurs_tail (p : string) (c : ascii) (s : string) :
  occurs p (String c s) = false -> occurs p s = false.
Proof. cbn [occurs]. now destruct (startsWith p (String c s)). Qed.

Lemma occurs_after_prefix (n p s r : string) :
  startsWith p s = Some r -> occurs n s = false -> occurs n r = false.
Proof.
  revert s. induction p as [|x p IH]; intros s Hp H.
  - cbn [startsWith] in Hp. now injection Hp as <-.
  - destruct s as [|c s]; cbn [startsWith] in Hp; [discriminate|].
    destruct (Ascii.eqb x c); [|discriminate].
    apply (IH s); [assumption | now apply occurs_tail in H].
Qed.

Lemma startsWith_prefix (a b s r : string) :
  startsWith (a +:+ b) s = Some r -> exists r', startsWith a s = Some r'.
Proof.
  revert s. induction a as [|x a IH]; intros s H.
  - now exists s.
  - rewrite append_cons in H.
    destruct s as [|c s]; cbn [startsWith] in *; [discriminate|].
    destruct (Ascii.eqb x c); [now apply IH | discriminate].
Qed.

Variable n : string.

(** The key alternative needs the name behind a line break and two
    blanks. *)
Lemma key_alternative_none (tail : regex) (A : Type) (caps : captures) (s : string)
    (k : captures -> string -> option A) :
  occurs n s = false ->
  run (Seq (Lit LF)
         (Seq (Class isWhiteSpace) (Seq (Class isWhiteSpace) (Seq (Lit n) tail))))
    A caps s k = None.
Proof.
  intros H. cbn [run].
  destruct (startsWith LF s) as [s1|] eqn:E1; [|reflexivity].
  apply (occurs_after_prefix n) in E1; [|assumption].
  destruct s1 as [|c1 s2]; [reflexivity|].
  destruct (isWhiteSpace c1); [|reflexivity].
  destruct s2 as [|c2 s3]; [reflexivity|].
  destruct (isWhiteSpace c2); [|reflexivity].
  apply occurs_tail, occurs_tail in E1.
  now rewrite (occurs_startsWith _ _ E1).
Qed.

(** The import alternative needs the name, bare or in braces, behind
    the word [import]. *)
Lemma import_alternative_none (tail : regex) (A : Type) (caps : captures) (s : string)
    (k : captures -> string -> option A) :
  occurs n s = false ->
  run (Seq (Lit "import ")
         (Seq (Group 3 (Alt (Lit n) (Lit ("{ " +:+ n +:+ " }")))) tail))
    A caps s k = None.
Proof.
  intros H. cbn [run].
  destruct (startsWith "import " s) as [s1|] eqn:E1; [|reflexivity].
  apply (occurs_after_prefix n) in E1; [|assumption].
  rewrite (occurs_startsWith _ _ E1).
  destruct (startsWith ("{ " +:+ n +:+ " }") s1) as [s2|] eqn:E2; [|reflexivity].
  exfalso.
  change ("{ " +:+ n +:+ " }") with (String "{" (String " " (n +:+ " }"))) in E2.
  destruct s1 as [|c1 s1]; cbn [startsWith] in E2; [discriminate|].
  destruct (Ascii.eqb "{" c1); [|discriminate].
  destruct s1 as [|c2 s1]; cbn [startsWith] in E2; [discriminate|].
  destruct (Ascii.eqb " " c2); [|discriminate].
  apply startsWith_prefix in E2 as [r' Hr'].
  apply occurs_tail, occurs_tail in E1.
  rewrite (occurs_startsWith _ _ E1) in Hr'. discriminate.
Qed.

Lemma group_of_alternatives_none (i : nat) (a b : regex) (s : string) :
  (forall k, run a (captures * string) [] s k = None) ->
  (forall k, run b (captures * string) [] s k = None) ->
  exec (Group i (Alt a b)) s = None.
Proof. intros Ha Hb. unfold exec. cbn [run]. now rewrite Ha, Hb. Qed.

Lemma exec_entryPattern_none (s : string) :
  occurs n s = false -> exec (entryPattern n) s = None.
Proof.
  intros H. unfold entryPattern. apply group_of_alternatives_none; intros k.
  - now apply key_alternative_none.
  - now apply import_alternative_none.
Qed.

Lemma deletedText_absent (data : string) :
  occurs n data = false -> deletedText n data = data.
Proof.
  intros H. unfold deletedText, replaceAll.
  assert (Hscan : forall b, scan (entryPattern n) "" 0 b data = data);
    [|apply Hscan].
  induction data as [|c data IH]; intros b.
  - apply scan_end_miss. now apply exec_entryPattern_none.
  - rewrite scan_miss by now apply exec_entryPattern_none.
    f_equal. apply IH. now apply occurs_tail in H.
Qed.

End AbsentName.

(** X9: removing a plain name (letters, digits and underscores) that
    occurs nowhere in the file, at a path that the shell reads as one
    word, changes nothing but for the formatter: the text handed to the
    formatter is the text of the file. *)
Theorem deleteFromFileWithExports_absent_name (prettier : string -> string)
    (fs : gmap string string) (path exportName data : string) :
  shellWord path = true ->
  plainName exportName = true ->
  fs !! path = Some data ->
  occurs exportName data = false ->
  deleteFromFileWithExports prettier fs path exportName
  = <[path := prettier data]> fs.
Proof.
  intros _ _ Hdata Habsent. unfold deleteFromFileWithExports, runPrettier.
  rewrite Hdata, lookup_insert_eq, insert_insert_eq.
  now rewrite deletedText_absent.
Qed.

Lemma deleteFromFileWithExports_absent_name_witness :
  shellWord "index.js" = true
  /\ plainName "Baz" = true
  /\ ({[ "index.js" := fooBarFile ]} : gmap string string) !! "index.js" = Some fooBarFile
  /\ occurs "Baz" fooBarFile = false
  /\ deleteFromFileWithExports (fun text => text) {[ "index.js" := fooBarFile ]}
       "index.js" "Baz"
     = <[ "index.js" := fooBarFile ]> {[ "index.js" := fooBarFile ]}.
Proof.
  split; [reflexivity|]. split; [reflexivity|].
  split; [apply lookup_singleton_eq|]. split; [reflexivity|].
  apply (deleteFromFileWithExports_absent_name (fun text => text)
           {[ "index.js" := fooBarFile ]} "index.js" "Baz" fooBarFile).
  - reflexivity.
  - reflexivity.
  - apply lookup_singleton_eq.
  - reflexivity.
Defined.

(** ** Export-file patcher: the layout that adding keeps *)

Section PlainNames.

Lemma isNameChar_facts (c : ascii) :
  isNameChar c = true ->
  Ascii.eqb c ","%char = false /\ isWhiteSpace c = false
  /\ Ascii.eqb c "}"%char = false /\ Ascii.eqb c "'"%char = false
  /\ Ascii.eqb c dollar = false /\ Ascii.eqb c newline = false.
Proof.
  destruct c as [b0 b1 b2 b3 b4 b5 b6 b7].
  destruct b0, b1, b2, b3, b4, b5, b6, b7; intros H; vm_compute in H;
    try discriminate; vm_compute; repeat split.
Qed.

Lemma allChars_contains (c : ascii) (s : string) :
  (forall a, isNameChar a = true -> Ascii.eqb a c = false) ->
  allChars isNameChar s = true -> contains c s = false.
Proof.
  intros Hc. induction s as [|a s IH]; intros H; [reflexivity|].
  cbn [allChars] in H. apply andb_true_iff in H as [Ha Hs].
  cbn [contains]. now rewrite (Hc a Ha), IH.
Qed.

Lemma plainName_allChars (n : string) :
  plainName n = true -> allChars isNameChar n = true.
Proof. destruct n; [discriminate | exact id]. Qed.

Lemma plainName_no_brace (n : string) :
  plainName n = true -> contains "}"%char n = false.
Proof.
  intros H. apply allChars_contains; [|now apply plainName_allChars].
  intros a Ha. apply (isNameChar_facts a Ha).
Qed.

Lemma plainName_no_quote (n : string) :
  plainName n = true -> contains "'"%char n = false.
Proof.
  intros H. apply allChars_contains; [|now apply plainName_allChars].
  intros a Ha. apply (isNameChar_facts a Ha).
Qed.

Lemma plainName_no_dollar (n : string) :
  plainName n = true -> contains dollar n = false.
Proof.
  intros H. apply allChars_contains; [|now apply plainName_allChars].
  intros a Ha. apply (isNameChar_facts a Ha).
Qed.

Lemma plainName_ends (n : string) :
  plainName n = true -> endsWithNameChar n = true.
Proof.
  destruct n as [|c n]; [discriminate|]. unfold plainName.
  revert c. induction n as [|c' n IH]; intros c H.
  - cbn [allChars] in H. cbn [endsWithNameChar]. now apply andb_true_iff in H as [H _].
  - cbn [allChars] in H. apply andb_true_iff in H as [_ H].
    change (endsWithNameChar (String c (String c' n)))
      with (endsWithNameChar (String c' n)).
    now apply IH.
Qed.

Lemma endsWithNameChar_app (a b : string) :
  b <> "" -> endsWithNameChar (a +:+ b) = endsWithNameChar b.
Proof.
  intros Hb. induction a as [|c a IH]; [reflexivity|].
  rewrite append_cons. destruct (a +:+ b) as [|c' s] eqn:E.
  - destruct a; [rewrite append_nil_l in E; contradiction | discriminate].
  - exact IH.
Qed.

End PlainNames.

Section LayoutFacts.

Lemma imports_app (a b : list string) : imports (a ++ b) = imports a +:+ imports b.
Proof.
  induction a as [|n a IH]; [reflexivity|].
  cbn [app imports]. now rewrite IH, append_assoc.
Qed.

Lemma join_snoc (sep : string) (ps : list string) (p : string) :
  ps <> [] -> join sep (ps ++ [p]) = join sep ps +:+ sep +:+ p.
Proof.
  induction ps as [|q ps IH]; intros H; [contradiction|].
  destruct ps as [|q' ps].
  - reflexivity.
  - change ((q :: q' :: ps) ++ [p]) with (q :: q' :: (ps ++ [p])).
    rewrite !join_cons2.
    change (q' :: ps ++ [p]) with ((q' :: ps) ++ [p]).
    rewrite IH by discriminate. now rewrite !append_assoc.
Qed.

Lemma keyLines_snoc (names : list string) (n : string) :
  names <> [] ->
  keyLines (names ++ [n]) = keyLines names +:+ "," +:+ LF +:+ "  " +:+ n.
Proof.
  intros H. unfold keyLines. rewrite map_app. cbn [map].
  rewrite join_snoc by (destruct names; [contradiction | discriminate]).
  now rewrite !append_assoc.
Qed.

Lemma contains_importLine (c : ascii) (n : string) :
  contains c "import from './';" = false ->
  Ascii.eqb newline c = false ->
  contains c n = false ->
  contains c (importLine n) = false.
Proof.
  intros Hfix Hnl Hn. unfold importLine, LF.
  rewrite !contains_append, Hn.
  cbn [contains orb] in *. rewrite Hnl.
  repeat (apply orb_false_iff in Hfix as [? Hfix]).
  repeat match goal with H : Ascii.eqb _ c = false |- _ => rewrite H; clear H end.
  reflexivity.
Qed.

Lemma contains_imports (c : ascii) (names : list string) :
  contains c "import from './';" = false ->
  Ascii.eqb newline c = false ->
  (forall n, In n names -> contains c n = false) ->
  contains c (imports names) = false.
Proof.
  intros Hfix Hnl. induction names as [|n names IH]; intros H; [reflexivity|].
  cbn [imports]. rewrite contains_append.
  rewrite contains_importLine by (first [assumption | apply H; now left]).
  apply IH. intros n' Hin. apply H. now right.
Qed.

Lemma contains_keyLines (c : ascii) (names : list string) :
  contains c ", " = false ->
  Ascii.eqb newline c = false ->
  (forall n, In n names -> contains c n = false) ->
  contains c (keyLines names) = false.
Proof.
  intros Hfix Hnl H. unfold keyLines. apply contains_join.
  - cbn [contains orb] in *. apply orb_false_iff in Hfix as [Hcomma _].
    unfold LF. rewrite append_cons, append_nil_l. cbn [contains].
    now rewrite Hcomma, Hnl.
  - intros p Hin. apply in_map_iff in Hin as [n [<- Hin]].
    rewrite contains_append, (H n Hin).
    cbn [contains orb] in *. apply orb_false_iff in Hfix as [_ Hsp].
    apply orb_false_iff in Hsp as [Hsp _]. now rewrite Hsp.
Qed.

Lemma keyLines_ends (names : list string) :
  names <> [] ->
  (forall n, In n names -> plainName n = true) ->
  endsWithNameChar (keyLines names) = true.
Proof.
  intros Hne H. destruct (exists_last Hne) as [front [lastName ->]].
  assert (Hlast : plainName lastName = true) by (apply H, in_or_app; right; now left).
  destruct front as [|n0 front].
  - unfold keyLines. cbn [app map join].
    rewrite endsWithNameChar_app by (destruct lastName; [discriminate Hlast | discriminate]).
    now apply plainName_ends.
  - rewrite keyLines_snoc by discriminate.
    rewrite <- !append_assoc.
    rewrite endsWithNameChar_app by (destruct lastName; [discriminate Hlast | discriminate]).
    now apply plainName_ends.
Qed.

(** The import lines of some names end with the terminator of the last
    line and a line break. *)
Lemma imports_end (names : list string) :
  names <> [] -> exists P, imports names = P +:+ "';" +:+ LF.
Proof.
  induction names as [|n names IH]; intros H; [contradiction|].
  destruct names as [|n' names].
  - exists ("import " +:+ n +:+ " from './" +:+ n).
    cbn [imports]. unfold importLine. now rewrite append_nil_r, !append_assoc.
  - destruct IH as [P HP]; [discriminate|].
    exists (importLine n +:+ P).
    change (imports (n :: n' :: names)) with (importLine n +:+ imports (n' :: names)).
    now rewrite HP, !append_assoc.
Qed.

End LayoutFacts.

Section TrimFacts.

Lemma trimEnd_app (a b : string) :
  trimEnd b <> "" -> trimEnd (a +:+ b) = a +:+ trimEnd b.
Proof.
  intros Hb. induction a as [|c a IH]; [reflexivity|].
  rewrite !append_cons. cbn [trimEnd]. rewrite IH.
  destruct (a +:+ trimEnd b) as [|c' s] eqn:E; [|reflexivity].
  destruct a; [rewrite append_nil_l in E; contradiction | discriminate].
Qed.

Lemma trimEnd_blank (a : string) (w : ascii) :
  isWhiteSpace w = true -> trimEnd (a +:+ String w "") = trimEnd a.
Proof.
  intros Hw. induction a as [|c a IH].
  - rewrite append_nil_l. cbn [trimEnd]. now rewrite Hw.
  - rewrite append_cons. cbn [trimEnd]. now rewrite IH.
Qed.

(** A text in the layout has no white space at either end. *)
Lemma trim_exportFileText (names : list string) :
  names <> [] -> trim (exportFileText names) = exportFileText names.
Proof.
  intros H. destruct names as [|n names]; [contradiction|].
  unfold trim.
  assert (Hstart : trimStart (exportFileText (n :: names)) = exportFileText (n :: names))
    by reflexivity.
  rewrite Hstart. unfold exportFileText.
  rewrite <- !append_assoc. now rewrite trimEnd_app.
Qed.

Lemma trim_exportFileText_LF (names : list string) :
  names <> [] -> trim (exportFileText names +:+ LF) = exportFileText names.
Proof.
  intros H. rewrite <- (trim_exportFileText names H) at 2.
  destruct names as [|n names]; [contradiction|].
  unfold trim.
  assert (Hstart : trimStart (exportFileText (n :: names) +:+ LF)
                   = exportFileText (n :: names) +:+ LF) by reflexivity.
  assert (Hstart' : trimStart (exportFileText (n :: names)) = exportFileText (n :: names))
    by reflexivity.
  rewrite Hstart, Hstart'. now apply trimEnd_blank.
Qed.

End TrimFacts.

Section TerminatorFacts.

Lemma lastIndexOf_no_quote (s : string) :
  contains "'"%char s = false -> lastIndexOf "';" s = None.
Proof.
  induction s as [|c s IH]; intros H; [reflexivity|].
  cbn [contains] in H. apply orb_false_iff in H as [Hc Hs].
  cbn [lastIndexOf startsWith]. rewrite (IH Hs).
  now rewrite Ascii.eqb_sym, Hc.
Qed.

Lemma lastIndexOf_app (p a b : string) (j : nat) :
  lastIndexOf p b = Some j -> lastIndexOf p (a +:+ b) = Some (String.length a + j).
Proof.
  intros H. induction a as [|c a IH]; [assumption|].
  rewrite append_cons. cbn [lastIndexOf String.length]. now rewrite IH.
Qed.

Lemma lastIndexOf_terminator (P Q : string) :
  contains "'"%char Q = false ->
  lastIndexOf "';" (P +:+ "';" +:+ Q) = Some (String.length P).
Proof.
  intros HQ. rewrite (lastIndexOf_app _ P _ 0); [f_equal; lia|].
  change ("';" +:+ Q) with (String "'" (String ";" Q)).
  cbn [lastIndexOf]. rewrite lastIndexOf_no_quote; [reflexivity|].
  cbn [contains]. now rewrite HQ.
Qed.

Lemma take_all (s : string) : take (String.length s) s = s.
Proof. rewrite <- (append_nil_r s) at 2. apply take_append. Qed.

Lemma slice_front (a b : string) : slice 0 (String.length a) (a +:+ b) = a.
Proof. unfold slice. rewrite Nat.sub_0_r. cbn [drop]. apply take_append. Qed.

Lemma slice_back (a b : string) :
  slice (String.length a) (String.length (a +:+ b)) (a +:+ b) = b.
Proof.
  unfold slice. rewrite length_append.
  replace (String.length a + String.length b - String.length a) with (String.length b)
    by lia.
  rewrite <- (Nat.add_0_r (String.length a)) at 1.
  rewrite drop_append. cbn [drop]. apply take_all.
Qed.

End TerminatorFacts.

Section ClosingBrace.

Variable t : string.
Hypothesis t_plain : contains dollar t = false.

Lemma exec_closing_far (a b d : ascii) (s : string) :
  Ascii.eqb b "}"%char = false -> Ascii.eqb d "}"%char = false ->
  exec closingBrace (String a (String b (String d s))) = None.
Proof.
  intros Hb Hd. rewrite Ascii.eqb_sym in Hb, Hd.
  unfold exec, closingBrace. cbn [run startsWith].
  repeat match goal with
         | |- context [if ?x then _ else _] => destruct x eqn:?; cbn [run startsWith]
         end; try reflexivity; congruence.
Qed.

Lemma exec_closing_name (a : ascii) (s : string) :
  isNameChar a = true -> exec closingBrace (String a s) = None.
Proof.
  intros Ha. destruct (isNameChar_facts a Ha) as [Hcomma [Hws _]].
  unfold exec, closingBrace. cbn [run startsWith].
  now rewrite (Ascii.eqb_sym ","%char a), Hcomma, Hws.
Qed.

(** In a text that holds a closing brace only in its last line [};], and
    a character of a name in front of that line, the one replacement is
    made at the end. *)
Lemma scan_closing (W b : string) :
  contains "}"%char W = false ->
  endsWithNameChar W = true ->
  scan closingBrace t 0 b (W +:+ LF +:+ "};") = W +:+ t.
Proof.
  revert b. induction W as [|a W IH]; intros b Hbrace Hend; [discriminate|].
  cbn [contains] in Hbrace. apply orb_false_iff in Hbrace as [Ha HW].
  rewrite !append_cons. destruct W as [|a2 W].
  - cbn [endsWithNameChar] in Hend. rewrite !append_nil_l.
    rewrite scan_miss by now apply exec_closing_name.
    f_equal. change (LF +:+ "};") with (String newline "};").
    rewrite (scan_hit closingBrace t _ newline "};" [(1, "")] "" 2);
      [|reflexivity|reflexivity].
    rewrite expand_plain by assumption.
    change (scan closingBrace t 2 ((b +:+ String a "") +:+ String newline "") "};")
      with "". apply append_nil_r.
  - cbn [contains] in HW. apply orb_false_iff in HW as [Ha2 HW].
    rewrite scan_miss.
    + f_equal. apply IH.
      * cbn [contains]. now rewrite Ha2, HW.
      * exact Hend.
    + rewrite append_cons. destruct W as [|a3 W].
      * rewrite append_nil_l. change (LF +:+ "};") with (String newline "};").
        now apply exec_closing_far.
      * rewrite append_cons. cbn [contains] in HW.
        apply orb_false_iff in HW as [Ha3 _]. now apply exec_closing_far.
Qed.

End ClosingBrace.

Section Appending.

Variable names : list string.
Variable n : string.
Hypothesis names_nonempty : names <> [].
Hypothesis names_plain : forall m, In m names -> plainName m = true.
Hypothesis n_plain : plainName n = true.

Let body : string :=
  LF +:+ "export default {" +:+ LF +:+ keyLines names +:+ LF +:+ "};".

Lemma keyLines_no_quote : contains "'"%char (keyLines names) = false.
Proof.
  apply contains_keyLines; [reflexivity | reflexivity|].
  intros m Hm. now apply plainName_no_quote, names_plain.
Qed.

Lemma keyLines_no_brace : contains "}"%char (keyLines names) = false.
Proof.
  apply contains_keyLines; [reflexivity | reflexivity|].
  intros m Hm. now apply plainName_no_brace, names_plain.
Qed.

Lemma imports_no_brace : contains "}"%char (imports names) = false.
Proof.
  apply contains_imports; [reflexivity | reflexivity|].
  intros m Hm. now apply plainName_no_brace, names_plain.
Qed.

(** The terminator of the last import line is the last one of the text,
    and the text up to the line break behind it is the import lines. *)
Lemma lastIndexOf_exportFileText :
  exists index,
    lastIndexOf "';" (imports names +:+ body) = Some index
    /\ index + 3 = String.length (imports names).
Proof.
  destruct (imports_end names names_nonempty) as [P HP].
  exists (String.length P). split.
  - rewrite HP, !append_assoc. apply lastIndexOf_terminator.
    unfold body. rewrite !contains_append, keyLines_no_quote. reflexivity.
  - rewrite HP, !length_append. reflexivity.
Qed.

Lemma exportFileText_long : Nat.ltb 1 (String.length (imports names +:+ body)) = true.
Proof.
  apply Nat.ltb_lt. rewrite length_append. unfold body.
  change (LF +:+ "export default {" +:+ LF +:+ keyLines names +:+ LF +:+ "};")
    with (String newline (String "e" ("xport default {" +:+ LF +:+ keyLines names
                                        +:+ LF +:+ "};"))).
  cbn [String.length]. lia.
Qed.

(** Adding a name to a file in the layout gives the file in the layout
    with the name as the last import and the last key. *)
Lemma updatedText_appends (data : string) :
  trim data = exportFileText names ->
  updatedText n (importLine n) data = exportFileText (names ++ [n]).
Proof.
  intros Htrim. unfold updatedText. rewrite Htrim.
  change (exportFileText names) with (imports names +:+ body).
  rewrite exportFileText_long.
  destruct lastIndexOf_exportFileText as [index [Hlast Hlen]].
  rewrite Hlast, Hlen. rewrite slice_front, slice_back.
  set (W := imports names +:+ importLine n +:+ LF +:+ "export default {" +:+ LF
            +:+ keyLines names).
  assert (Hshape : imports names +:+ importLine n +:+ body = W +:+ LF +:+ "};")
    by (unfold W, body; now rewrite !append_assoc).
  rewrite Hshape. unfold replaceAll. rewrite scan_closing.
  - unfold W, exportFileText. rewrite imports_app, keyLines_snoc by assumption.
    cbn [imports]. now rewrite append_nil_r, !append_assoc.
  - rewrite !contains_append, (plainName_no_dollar n n_plain). reflexivity.
  - unfold W. rewrite !contains_append, imports_no_brace, keyLines_no_brace.
    rewrite contains_importLine;
      [reflexivity | reflexivity | reflexivity | now apply plainName_no_brace].
  - unfold W. rewrite <- !append_assoc.
    pose proof (keyLines_ends names names_nonempty names_plain) as Hend.
    rewrite endsWithNameChar_app; [assumption|].
    intros E. now rewrite E in Hend.
Qed.

End Appending.

Lemma plainNames_In (names : list string) :
  forallb plainName names = true -> forall m, In m names -> plainName m = true.
Proof. intros H. now apply forallb_forall. Qed.

(** X10: on a file that is, but for white space at its ends, in the
    layout of import lines, blank line and export block with plain names,
    adding a plain name writes the file in the same layout with the name
    as the last import and the last key; the order of the other names is
    kept. *)
Theorem updateFileWithExports_appends (fs : gmap string string) (path : string)
    (names : list string) (n data : string) :
  fs !! path = Some data ->
  trim data = exportFileText names ->
  names <> [] ->
  forallb plainName names = true ->
  plainName n = true ->
  updateFileWithExports fs (addName path n)
  = <[path := exportFileText (names ++ [n])]> fs.
Proof.
  intros Hdata Htrim Hne Hplain Hn. unfold updateFileWithExports.
  cbn [addName pathToFileWithExports exportName importString].
  rewrite Hdata. f_equal.
  now apply updatedText_appends; [|apply plainNames_In|..].
Qed.

Lemma updateFileWithExports_appends_witness :
  ({[ "index.js" := exportFileText ["Foo"; "Bar"] +:+ LF ]} : gmap string string)
    !! "index.js" = Some (exportFileText ["Foo"; "Bar"] +:+ LF)
  /\ trim (exportFileText ["Foo"; "Bar"] +:+ LF) = exportFileText ["Foo"; "Bar"]
  /\ updateFileWithExports {[ "index.js" := exportFileText ["Foo"; "Bar"] +:+ LF ]}
       (addName "index.js" "Baz")
     = <[ "index.js" := exportFileText (["Foo"; "Bar"] ++ ["Baz"]) ]>
         {[ "index.js" := exportFileText ["Foo"; "Bar"] +:+ LF ]}.
Proof.
  split; [apply lookup_singleton_eq|]. split; [reflexivity|].
  apply (updateFileWithExports_appends
           {[ "index.js" := exportFileText ["Foo"; "Bar"] +:+ LF ]} "index.js"
           ["Foo"; "Bar"] "Baz" (exportFileText ["Foo"; "Bar"] +:+ LF)).
  - apply lookup_singleton_eq.
  - reflexivity.
  - discriminate.
  - reflexivity.
  - reflexivity.
Defined.

(** The first name, added to an empty file. *)
Lemma updatedText_first (n : string) :
  updatedText n (importLine n) "" = exportFileText [n] +:+ LF.
Proof.
  unfold updatedText, exportFileText, exportGraphqlContainer, keyLines.
  cbn [trim trimStart trimEnd String.length Nat.ltb Nat.leb imports map join].
  now rewrite append_nil_r, !append_assoc.
Qed.

Lemma addNames_from_layout (path : string) (more names : list string)
    (fs : gmap string string) (data : string) :
  names <> [] ->
  forallb plainName names = true ->
  forallb plainName more = true ->
  fs !! path = Some data ->
  trim data = exportFileText names ->
  exists text,
    addNames fs path more !! path = Some text
    /\ trim text = exportFileText (names ++ more).
Proof.
  revert names fs data. induction more as [|n more IH];
    intros names fs data Hne Hplain Hmore Hdata Htrim.
  - exists data. rewrite app_nil_r. now split.
  - cbn [forallb] in Hmore. apply andb_true_iff in Hmore as [Hn Hmore].
    unfold addNames. cbn [fold_left]. fold (addNames
      (updateFileWithExports fs (addName path n)) path more).
    unfold updateFileWithExports at 1.
    cbn [addName pathToFileWithExports exportName importString]. rewrite Hdata.
    rewrite (updatedText_appends names n Hne (plainNames_In _ Hplain) Hn data Htrim).
    destruct (IH (names ++ [n])
                (<[path := exportFileText (names ++ [n])]> fs)
                (exportFileText (names ++ [n]))) as [text [Htext Hlayout]].
    + now destruct names.
    + rewrite forallb_app. cbn [forallb]. now rewrite Hplain, Hn.
    + assumption.
    + apply lookup_insert_eq.
    + apply trim_exportFileText. now destruct names.
    + exists text. split; [assumption|]. now rewrite <- app_assoc in Hlayout.
Qed.

(** X11: starting from an empty file, adding plain names one after the
    other leaves, but for white space at the ends, the file in the
    layout: one import line for each name and one key for each name, both
    in the order in which the names were added. *)
Theorem addNames_layout (fs : gmap string string) (path : string)
    (names : list string) :
  fs !! path = Some "" ->
  names <> [] ->
  forallb plainName names = true ->
  exists text,
    addNames fs path names !! path = Some text
    /\ trim text = exportFileText names.
Proof.
  intros Hdata Hne Hplain. destruct names as [|n names]; [contradiction|].
  cbn [forallb] in Hplain. apply andb_true_iff in Hplain as [Hn Hplain].
  unfold addNames. cbn [fold_left].
  fold (addNames (updateFileWithExports fs (addName path n)) path names).
  unfold updateFileWithExports at 1.
  cbn [addName pathToFileWithExports exportName importString]. rewrite Hdata.
  rewrite updatedText_first.
  apply (addNames_from_layout path names [n] _ (exportFileText [n] +:+ LF)).
  - discriminate.
  - cbn [forallb]. now rewrite Hn.
  - assumption.
  - apply lookup_insert_eq.
  - now apply trim_exportFileText_LF.
Qed.

Lemma addNames_layout_witness :
  ({[ "index.js" := "" ]} : gmap string string) !! "index.js" = Some ""
  /\ exists text,
       addNames {[ "index.js" := "" ]} "index.js" ["Chat"; "UserProfile"; "post_2"]
         !! "index.js" = Some text
       /\ trim text = exportFileText ["Chat"; "UserProfile"; "post_2"].
Proof.
  split; [apply lookup_singleton_eq|].
  apply (addNames_layout {[ "index.js" := "" ]} "index.js"
           ["Chat"; "UserProfile"; "post_2"]).
  - apply lookup_singleton_eq.
  - discriminate.
  - reflexivity.
Defined.

(** ** Export-file patcher: removing a name from a file in the layout *)

Section DeleteSteps.

Variable n : string.




Lemma deletedText_end : deletedText n "" = "".
Proof. reflexivity. Qed.

(** *** Where no match starts *)






End DeleteSteps.

Section PlainText.









End PlainText.

Section DeleteLayout.

Variable n : string.
Hypothesis n_plain : plainName n = true.
Hypothesis n_from : startsWith n "from" = None.









(** *** Key lines of other names *)






(** *** The lines of the name itself *)









(** *** The whole file *)










End DeleteLayout.









(** ** Export-file patcher: a file without a closing line *)

Lemma exec_closing_absent (s : string) :
  occurs "};" s = false -> exec closingBrace s = None.
Proof.
  intros H. unfold exec, closingBrace. cbn [run].
  destruct s as [|a s]; [reflexivity|].
  pose proof (occurs_tail _ _ _ H) as H1.
  pose proof (occurs_startsWith _ _ H1) as E1.
  cbv beta iota. rewrite E1.
  destruct (startsWith "," (String a s)) as [s'|] eqn:Ec.
  - apply startsWith_eq in Ec. change ("," +:+ s') with (String "," s') in Ec.
    injection Ec as _ <-.
    destruct s as [|b s]; [now destruct (isWhiteSpace a)|].
    pose proof (occurs_tail _ _ _ H1) as H2.
    rewrite (occurs_startsWith _ _ H2).
    now destruct (isWhiteSpace b), (isWhiteSpace a).
  - now destruct (isWhiteSpace a).
Qed.

Lemma replaceAll_closing_absent (t s : string) :
  occurs "};" s = false -> replaceAll closingBrace t s = s.
Proof.
  intros H. unfold replaceAll. generalize ("" : string) as b.
  induction s as [|c s IH]; intros b.
  - apply scan_end_miss. now apply exec_closing_absent.
  - rewrite scan_miss by now apply exec_closing_absent.
    f_equal. apply IH. now apply occurs_tail in H.
Qed.

(** X18: the key is added only in front of a closing line [};]: on a
    file with an import terminator whose text, with the import string
    inserted, holds no [};] at all, the import string is inserted behind
    the last terminator and nothing else changes, so the name becomes no
    key. *)
Theorem updateFileWithExports_unclosed (fs : gmap string string) (args : UpdateArgs)
    (data : string) (index : nat) :
  fs !! pathToFileWithExports args = Some data ->
  1 < String.length (trim data) ->
  lastIndexOf "';" (trim data) = Some index ->
  occurs "};"
    (slice 0 (index + 3) (trim data) +:+ importString args
     +:+ slice (index + 3) (String.length (trim data)) (trim data)) = false ->
  updateFileWithExports fs args
  = <[pathToFileWithExports args :=
        slice 0 (index + 3) (trim data) +:+ importString args
        +:+ slice (index + 3) (String.length (trim data)) (trim data)]> fs.
Proof.
  intros Hdata Hlen Hlast Hopen. unfold updateFileWithExports. rewrite Hdata.
  f_equal. unfold updatedText.
  apply Nat.ltb_lt in Hlen. rewrite Hlen, Hlast.
  now apply replaceAll_closing_absent.
Qed.

Lemma updateFileWithExports_unclosed_witness :
  updateFileWithExports
    {[ "index.js" := "import Chat from './Chat';" +:+ LF +:+ "export default { Chat }" ]}
    (addFoo "index.js")
  = <[ "index.js" := "import Chat from './Chat';" +:+ LF +:+ importFoo
                     +:+ "export default { Chat }" ]>
      {[ "index.js" := "import Chat from './Chat';" +:+ LF +:+ "export default { Chat }" ]}.
Proof.
  apply (updateFileWithExports_unclosed
           {[ "index.js" := "import Chat from './Chat';" +:+ LF
                            +:+ "export default { Chat }" ]}
           (addFoo "index.js")
           ("import Chat from './Chat';" +:+ LF +:+ "export default { Chat }") 24).
  - apply lookup_singleton_eq.
  - vm_compute. lia.
  - reflexivity.
  - reflexivity.
Defined.
